(** * Token acquisition samples and JWE parsing of the MSAL for JS repository

    A shallow embedding of
    - [lib/msal-browser/src/utils/JsonWebEncryption.ts] (module [JWE]),
    - the B2C authorization-code sample application with PKCE
      (module [B2CApp]),
    together with models, written from the design document, of the engine
    parts that the sample only calls into (modules [Pkce], [Engine] and
    [Coalesce]). *)

From Stdlib Require Import String Ascii List NArith ZArith Lia Bool.
From Stdlib.Strings Require Import Byte.
From stdpp Require Import gmap strings list fin_maps.
Import ListNotations.

Local Open Scope string_scope.
Local Open Scope list_scope.
Local Open Scope stdpp_scope.

(** ** JavaScript-style outcomes: a computation either returns or throws *)

Inductive Outcome (E A : Type) : Type :=
| Returned (a : A)
| Thrown (e : E).
Arguments Returned {E A} a.
Arguments Thrown {E A} e.

Definition outcome_map {E A B} (f : A -> B) (o : Outcome E A) : Outcome E B :=
  match o with
  | Returned a => Returned (f a)
  | Thrown e => Thrown e
  end.

(** [split] of [String.prototype.split] with a one-character separator:
    the result always has at least one element, and an empty input gives
    the one-element list holding the empty string. *)
Fixpoint split (sep : ascii) (s : string) : list string :=
  match s with
  | EmptyString => [EmptyString]
  | String c rest =>
      if Ascii.eqb c sep then EmptyString :: split sep rest
      else match split sep rest with
           | [] => [String c EmptyString]
           | seg :: segs => String c seg :: segs
           end
  end.

Module JWE.

Section Constructor.

(** [Base64Decode] (../encode/Base64Decode) and [JSON.parse] are not part of
    the sources at hand: both are taken as parameters.  An array read
    [jweAttributes[i]] past the end is [undefined], here [None]; the decoder
    is handed whatever the read gives. *)
Variable JsError : Type.
Variable Json : Type.
Variable decode : option string -> Outcome JsError string.
Variable JSON_parse : string -> Outcome JsError Json.

(** A computation of the constructor: the arguments handed to
    [base64Decode.decode] so far, oldest first, and the outcome. *)
Definition M (A : Type) : Type := (list (option string) * Outcome JsError A)%type.

Definition ret {A} (a : A) : M A := ([], Returned a).

Definition bind {A B} (m : M A) (k : A -> M B) : M B :=
  match m with
  | (log, Returned a) => let '(log', r) := k a in (log ++ log', r)
  | (log, Thrown e) => (log, Thrown e)
  end.

Definition base64Decode (input : option string) : M string :=
  ([input], decode input).

Definition lift {A} (o : Outcome JsError A) : M A := ([], o).

Notation "'let!' x ':=' m 'in' k" := (bind m (fun x => k))
  (at level 10, x name, m at level 100, k at level 200).

Record JsonWebEncryption := {
  header : Json;
  encryptedKey : string;
  initializationVector : string;
  ciphertext : string;
  authenticationTag : string
}.

(** [try { return JSON.parse(decodedHeader); } catch (error) { throw error; }] *)
Definition parseJweProtectedHeader (encodedHeader : option string) : M Json :=
  let! decodedHeader := base64Decode encodedHeader in
  lift (JSON_parse decodedHeader).

(** The constructor (lines 22-33), without its [console.log]; the closing
    expression statement [this.encryptedKey;] does nothing. *)
Definition constructor (rawJwe : string) : M JsonWebEncryption :=
  let jweAttributes := split "." rawJwe in
  let! h := parseJweProtectedHeader (jweAttributes !! 0%nat) in
  let! ek := base64Decode (jweAttributes !! 1%nat) in
  let! iv := base64Decode (jweAttributes !! 2%nat) in
  let! ct := base64Decode (jweAttributes !! 3%nat) in
  let! tag := base64Decode (jweAttributes !! 4%nat) in
  ret {| header := h; encryptedKey := ek; initializationVector := iv;
         ciphertext := ct; authenticationTag := tag |}.

Definition decoder_calls {A} (m : M A) : list (option string) := fst m.
Definition outcome {A} (m : M A) : Outcome JsError A := snd m.

(** The five array reads of the constructor, in program order. *)
Definition segment_reads (rawJwe : string) : list (option string) :=
  (fun i : nat => split "." rawJwe !! i) <$> [0; 1; 2; 3; 4]%nat.

End Constructor.

Arguments constructor {JsError Json} decode JSON_parse rawJwe.
Arguments parseJweProtectedHeader {JsError Json} decode JSON_parse encodedHeader.
Arguments base64Decode {JsError} decode input.
Arguments decoder_calls {JsError A} m.
Arguments outcome {JsError A} m.
Arguments header {Json} j.
Arguments encryptedKey {Json} j.
Arguments initializationVector {Json} j.
Arguments ciphertext {Json} j.
Arguments authenticationTag {Json} j.

End JWE.

(** ** The B2C authorization-code sample with PKCE

    The Express application: two request objects and [app.locals] are shared,
    mutable, and live across requests; each route handler is a state
    transformer that also issues effects (calls into MSAL Node, calls to the
    web API, the HTTP response).  A handler is taken together with the
    callbacks it registers, as one step: requests are served one at a time,
    and what MSAL Node and the web API answer is given with the request. *)

Module B2CApp.

(** [./policies] is not part of the sources at hand; its three user flows are
    kept symbolic.  An [authority] field holds either the authority URL of a
    flow ([policies.authorities.X.authority]) or, after the assignment in the
    password-reset branch of [/redirect], the whole policy object
    ([policies.authorities.resetPassword]). *)
Inductive Policy := signUpSignIn | resetPassword | editProfile.

Inductive AuthorityValue :=
| AuthorityUrl (p : Policy)
| PolicyObject (p : Policy).

Definition redirectUri : string := "http://localhost:3000/redirect".

Definition webApiScopes : list string :=
  ["https://fabrikamb2c.onmicrosoft.com/helloapi/demo.read"].
Definition webApiUri : string := "https://fabrikamb2chello.azurewebsites.net/hello".

Definition SCOPES_oidc : list string := ["openid"; "profile"].
Definition SCOPES_resource1 : list string := webApiScopes.

Definition APP_STATES_login : string := "login".
Definition APP_STATES_call_api : string := "call_api".
Definition APP_STATES_password_reset : string := "password_reset".

(** A property that was never assigned reads [undefined]: [None]. *)
Record AuthCodeRequest := {
  acr_redirectUri : string;
  acr_authority : option AuthorityValue;
  acr_scopes : option (list string);
  acr_state : option string;
  acr_codeChallenge : option string;
  acr_codeChallengeMethod : option string
}.

Record TokenRequest := {
  tr_redirectUri : string;
  tr_authority : option AuthorityValue;
  tr_scopes : option (list string);
  tr_code : option string;
  tr_codeVerifier : option string
}.

Record PkceCodes := {
  challengeMethod : string;
  verifier : string;
  challenge : string
}.

(** [app.locals.accessToken]: [null] is [None]. *)
Record AppState := {
  authCodeRequest : AuthCodeRequest;
  tokenRequest : TokenRequest;
  pkceCodes : PkceCodes;
  accessToken : option string
}.

Definition initial : AppState := {|
  authCodeRequest := {| acr_redirectUri := redirectUri; acr_authority := None;
                        acr_scopes := None; acr_state := None;
                        acr_codeChallenge := None; acr_codeChallengeMethod := None |};
  tokenRequest := {| tr_redirectUri := redirectUri; tr_authority := None;
                     tr_scopes := None; tr_code := None; tr_codeVerifier := None |};
  pkceCodes := {| challengeMethod := "S256"; verifier := ""; challenge := "" |};
  accessToken := None
|}.

(** The part of MSAL's [AuthenticationResult] that the sample reads
    ([accessToken], [account.username]) and the two fields that describe the
    token it carries ([expiresOn], seconds since the epoch, and [scopes]),
    which the sample never reads. *)
Record AuthenticationResult := {
  res_accessToken : string;
  res_username : string;
  res_expiresOn : Z;
  res_scopes : list string
}.

(** [req.query]: a parameter given once reads as a string, one that is
    absent reads [undefined].  (A repeated parameter reads as an array, which
    [===] tells apart from every string, as it does an unknown string.) *)
Record Query := {
  q_state : option string;
  q_code : option string;
  q_error : option string;
  q_error_description : option string
}.

Inductive TemplateParams :=
| LoginParams (showSignInButton : bool)
| UserParams (showLoginButton : bool) (username : string)
| ApiParams (showLoginButton : bool) (profile : string).

Section Handlers.

(** Errors rejected by MSAL Node, and the body the web API answers with:
    both come from outside the sample. *)
Variable AuthError : Type.

Inductive Body :=
| BodyText (s : string)
| BodyError (e : AuthError).

Inductive Response :=
| Redirect (url : string)
| Render (view : string) (params : TemplateParams)
| StatusSend (status : Z) (body : Body).

(** What a handler does to the outside, in program order. *)
Inductive Effect :=
| GeneratePkceCodes
| GetAuthCodeUrl (request : AuthCodeRequest)
| AcquireTokenByCode (request : TokenRequest)
| CallWebApi (uri token : string)
| ConsoleLog (e : AuthError)
| Respond (r : Response).

(** What the outside answers while one request is served: the promise of
    [generatePkceCodes], of [getAuthCodeUrl], of [acquireTokenByCode], and
    the (already stringified) body handed to the [callWebApi] callback. *)
Record Env := {
  env_pkce : Outcome AuthError (string * string);
  env_authCodeUrl : Outcome AuthError string;
  env_token : Outcome AuthError AuthenticationResult;
  env_apiResponse : string
}.

Definition set_authCodeRequest (f : AuthCodeRequest -> AuthCodeRequest) (st : AppState) : AppState :=
  {| authCodeRequest := f (authCodeRequest st); tokenRequest := tokenRequest st;
     pkceCodes := pkceCodes st; accessToken := accessToken st |}.

Definition set_tokenRequest (f : TokenRequest -> TokenRequest) (st : AppState) : AppState :=
  {| authCodeRequest := authCodeRequest st; tokenRequest := f (tokenRequest st);
     pkceCodes := pkceCodes st; accessToken := accessToken st |}.

Definition set_pkceCodes (f : PkceCodes -> PkceCodes) (st : AppState) : AppState :=
  {| authCodeRequest := authCodeRequest st; tokenRequest := tokenRequest st;
     pkceCodes := f (pkceCodes st); accessToken := accessToken st |}.

Definition set_accessToken (t : option string) (st : AppState) : AppState :=
  {| authCodeRequest := authCodeRequest st; tokenRequest := tokenRequest st;
     pkceCodes := pkceCodes st; accessToken := t |}.

(** [getAuthCode], synchronous part (lines 119-123). *)
Definition getAuthCode_prepare (authority : AuthorityValue) (scopes : list string)
    (state : string) (st : AppState) : AppState :=
  set_authCodeRequest (fun r =>
    {| acr_redirectUri := acr_redirectUri r;
       acr_authority := Some authority;
       acr_scopes := Some scopes;
       acr_state := Some state;
       acr_codeChallenge := acr_codeChallenge r;
       acr_codeChallengeMethod := acr_codeChallengeMethod r |}) st.

(** [getAuthCode], the callback of [generatePkceCodes()] up to the call of
    [getAuthCodeUrl] (lines 127-136). *)
Definition getAuthCode_onPkceCodes (codes : string * string) (st : AppState) : AppState :=
  let st1 := set_pkceCodes (fun p =>
    {| challengeMethod := challengeMethod p; verifier := fst codes;
       challenge := snd codes |}) st in
  set_authCodeRequest (fun r =>
    {| acr_redirectUri := acr_redirectUri r;
       acr_authority := acr_authority r;
       acr_scopes := acr_scopes r;
       acr_state := acr_state r;
       acr_codeChallenge := Some (challenge (pkceCodes st1));
       acr_codeChallengeMethod := Some (challengeMethod (pkceCodes st1)) |}) st1.

(** [getAuthCode]: a rejected [generatePkceCodes()] has no handler and ends
    the request without an answer; a rejected [getAuthCodeUrl] is logged. *)
Definition getAuthCode (authority : AuthorityValue) (scopes : list string)
    (state : string) (env : Env) (st : AppState) : AppState * list Effect :=
  let st1 := getAuthCode_prepare authority scopes state st in
  match env_pkce env with
  | Thrown _ => (st1, [GeneratePkceCodes])
  | Returned codes =>
      let st2 := getAuthCode_onPkceCodes codes st1 in
      match env_authCodeUrl env with
      | Returned url =>
          (st2, [GeneratePkceCodes; GetAuthCodeUrl (authCodeRequest st2); Respond (Redirect url)])
      | Thrown e =>
          (st2, [GeneratePkceCodes; GetAuthCodeUrl (authCodeRequest st2); ConsoleLog e])
      end
  end.

(** [!app.locals.accessToken]: [null], [undefined] and the empty string
    are falsy. *)
Definition truthy (v : option string) : bool :=
  match v with
  | None => false
  | Some s => negb (String.eqb s "")
  end.

(** [v === s] for a value that is a string or [undefined]. *)
Definition strict_eq (v : option string) (s : string) : bool :=
  match v with
  | None => false
  | Some s' => String.eqb s' s
  end.

(** [hay.includes(needle)]. *)
Fixpoint includes (needle hay : string) : bool :=
  String.prefix needle hay ||
  match hay with
  | EmptyString => false
  | String _ rest => includes needle rest
  end.

(** [GET /] *)
Definition get_root (st : AppState) : AppState * list Effect :=
  (st, [Respond (Render "login" (LoginParams true))]).

(** [GET /login] *)
Definition get_login (env : Env) (st : AppState) : AppState * list Effect :=
  if strict_eq (acr_state (authCodeRequest st)) APP_STATES_password_reset
  then getAuthCode (AuthorityUrl resetPassword) SCOPES_oidc APP_STATES_password_reset env st
  else getAuthCode (AuthorityUrl signUpSignIn) SCOPES_oidc APP_STATES_login env st.

(** [GET /profile] *)
Definition get_profile (env : Env) (st : AppState) : AppState * list Effect :=
  getAuthCode (AuthorityUrl editProfile) SCOPES_oidc APP_STATES_login env st.

(** [GET /api]: with no access token in store an authorization code is
    requested, else the web API is called with the stored token. *)
Definition get_api (env : Env) (st : AppState) : AppState * list Effect :=
  match accessToken st with
  | Some token =>
      if negb (truthy (Some token))
      then getAuthCode (AuthorityUrl signUpSignIn) SCOPES_resource1 APP_STATES_call_api env st
      else (st, [CallWebApi webApiUri token;
                 Respond (Render "api" (ApiParams false (env_apiResponse env)))])
  | None =>
      getAuthCode (AuthorityUrl signUpSignIn) SCOPES_resource1 APP_STATES_call_api env st
  end.

(** [/redirect], [login] branch: the token request as prepared before the
    call of [acquireTokenByCode] (lines 186-188). *)
Definition prepare_login (q : Query) (st : AppState) : AppState :=
  set_tokenRequest (fun r =>
    {| tr_redirectUri := tr_redirectUri r;
       tr_authority := tr_authority r;
       tr_scopes := Some SCOPES_oidc;
       tr_code := q_code q;
       tr_codeVerifier := Some (verifier (pkceCodes st)) |}) st.

(** [/redirect], [call_api] branch (lines 214-217). *)
Definition prepare_call_api (q : Query) (st : AppState) : AppState :=
  set_tokenRequest (fun r =>
    {| tr_redirectUri := tr_redirectUri r;
       tr_authority := Some (AuthorityUrl signUpSignIn);
       tr_scopes := Some SCOPES_resource1;
       tr_code := q_code q;
       tr_codeVerifier := Some (verifier (pkceCodes st)) |}) st.

(** The rejection handler of the [login] branch (lines 194-209).
    [JSON.stringify(undefined)] is [undefined], so with an [error] parameter
    but no [error_description] the handler itself throws and the request is
    left without an answer. *)
Definition login_rejected (q : Query) (error : AuthError) (st : AppState)
    : AppState * list Effect :=
  if truthy (q_error q) then
    match q_error_description q with
    | None => (st, [])
    | Some d =>
        if includes "AADB2C90118" d then
          (set_authCodeRequest (fun r =>
             {| acr_redirectUri := acr_redirectUri r;
                acr_authority := Some (PolicyObject resetPassword);
                acr_scopes := acr_scopes r;
                acr_state := Some APP_STATES_password_reset;
                acr_codeChallenge := acr_codeChallenge r;
                acr_codeChallengeMethod := acr_codeChallengeMethod r |}) st,
           [Respond (Redirect "/login")])
        else (st, [Respond (StatusSend 500 (BodyError error))])
    end
  else (st, [Respond (StatusSend 500 (BodyError error))]).

(** [GET /redirect]: second leg of the authorization-code grant. *)
Definition get_redirect (q : Query) (env : Env) (st : AppState) : AppState * list Effect :=
  if strict_eq (q_state q) APP_STATES_login then
    let st1 := prepare_login q st in
    match env_token env with
    | Returned response =>
        (st1, [AcquireTokenByCode (tokenRequest st1);
               Respond (Render "api" (UserParams false (res_username response)))])
    | Thrown error =>
        let '(st2, effs) := login_rejected q error st1 in
        (st2, AcquireTokenByCode (tokenRequest st1) :: effs)
    end
  else if strict_eq (q_state q) APP_STATES_call_api then
    let st1 := prepare_call_api q st in
    match env_token env with
    | Returned response =>
        (set_accessToken (Some (res_accessToken response)) st1,
         [AcquireTokenByCode (tokenRequest st1);
          CallWebApi webApiUri (res_accessToken response);
          Respond (Render "api" (ApiParams false (env_apiResponse env)))])
    | Thrown error =>
        (st1, [AcquireTokenByCode (tokenRequest st1);
               ConsoleLog error;
               Respond (StatusSend 500 (BodyError error))])
    end
  else if strict_eq (q_state q) APP_STATES_password_reset then
    (set_authCodeRequest (fun r =>
       {| acr_redirectUri := acr_redirectUri r;
          acr_authority := acr_authority r;
          acr_scopes := acr_scopes r;
          acr_state := Some APP_STATES_login;
          acr_codeChallenge := acr_codeChallenge r;
          acr_codeChallengeMethod := acr_codeChallengeMethod r |}) st,
     [Respond (Redirect "/login")])
  else (st, [Respond (StatusSend 500 (BodyText "Unknown"))]).

(** The routes of the application. *)
Inductive Request :=
| GET_root
| GET_login
| GET_profile
| GET_api
| GET_redirect (q : Query).

Definition handle (req : Request) (env : Env) (st : AppState) : AppState * list Effect :=
  match req with
  | GET_root => get_root st
  | GET_login => get_login env st
  | GET_profile => get_profile env st
  | GET_api => get_api env st
  | GET_redirect q => get_redirect q env st
  end.

(** Requests served one after the other, with everything done to the
    outside collected in order. *)
Fixpoint serve (reqs : list (Request * Env)) (st : AppState) : AppState * list Effect :=
  match reqs with
  | [] => (st, [])
  | (req, env) :: rest =>
      let '(st1, effs1) := handle req env st in
      let '(st2, effs2) := serve rest st1 in
      (st2, effs1 ++ effs2)
  end.

(** Observations on effects. *)
Definition is_code_exchange (e : Effect) : bool :=
  match e with AcquireTokenByCode _ => true | _ => false end.

Definition is_acquisition (e : Effect) : bool :=
  match e with
  | GeneratePkceCodes | GetAuthCodeUrl _ | AcquireTokenByCode _ => true
  | _ => false
  end.

Definition exchange_verifiers (effs : list Effect) : list (option string) :=
  flat_map (fun e => match e with
                     | AcquireTokenByCode r => [tr_codeVerifier r]
                     | _ => []
                     end) effs.

Definition api_tokens (effs : list Effect) : list string :=
  flat_map (fun e => match e with
                     | CallWebApi _ token => [token]
                     | _ => []
                     end) effs.

Definition sent_states (effs : list Effect) : list (option string) :=
  flat_map (fun e => match e with
                     | GetAuthCodeUrl r => [acr_state r]
                     | _ => []
                     end) effs.

End Handlers.

Arguments BodyText {AuthError} s.
Arguments BodyError {AuthError} e.
Arguments Redirect {AuthError} url.
Arguments Render {AuthError} view params.
Arguments StatusSend {AuthError} status body.
Arguments GeneratePkceCodes {AuthError}.
Arguments GetAuthCodeUrl {AuthError} request.
Arguments AcquireTokenByCode {AuthError} request.
Arguments CallWebApi {AuthError} uri token.
Arguments ConsoleLog {AuthError} e.
Arguments Respond {AuthError} r.
Arguments env_pkce {AuthError} e.
Arguments env_authCodeUrl {AuthError} e.
Arguments env_token {AuthError} e.
Arguments env_apiResponse {AuthError} e.
Arguments getAuthCode {AuthError} authority scopes state env st.
Arguments get_root {AuthError} st.
Arguments get_login {AuthError} env st.
Arguments get_profile {AuthError} env st.
Arguments get_api {AuthError} env st.
Arguments login_rejected {AuthError} q error st.
Arguments get_redirect {AuthError} q env st.
Arguments handle {AuthError} req env st.
Arguments serve {AuthError} reqs st.
Arguments is_code_exchange {AuthError} e.
Arguments is_acquisition {AuthError} e.
Arguments exchange_verifiers {AuthError} effs.
Arguments api_tokens {AuthError} effs.
Arguments sent_states {AuthError} effs.

End B2CApp.

(** ** PKCE code generation *)

Module Pkce.


Definition alphabet : string :=
  "ABCDEFGHIJKLMNOPQRSTUVWXYZabcdefghijklmnopqrstuvwxyz0123456789-_".

Definition b64char (n : N) : ascii :=
  match String.get (N.to_nat (n mod 64)%N) alphabet with
  | Some c => c
  | None => "A"%char
  end.

(** Modelled from the spec: [base64UrlEncode] of the CryptoCapability, which
    the sources at hand only reach through [msal.CryptoProvider]; base64 over
    the URL-safe alphabet, three octets to four characters, with no padding. *)
Fixpoint base64UrlEncode (bs : list byte) : string :=
  match bs with
  | [] => EmptyString
  | [a] =>
      let n := Byte.to_N a in
      String (b64char (n / 4)%N) (String (b64char ((n mod 4) * 16)%N) EmptyString)
  | [a; b] =>
      let n := (Byte.to_N a * 256 + Byte.to_N b)%N in
      String (b64char (n / 1024)%N)
        (String (b64char (n / 16)%N)
           (String (b64char ((n mod 16) * 4)%N) EmptyString))
  | a :: b :: c :: rest =>
      let n := (Byte.to_N a * 65536 + Byte.to_N b * 256 + Byte.to_N c)%N in
      String (b64char (n / 262144)%N)
        (String (b64char (n / 4096)%N)
           (String (b64char (n / 64)%N)
              (String (b64char n) (base64UrlEncode rest))))
  end.



Section Generator.

(** SHA-256 is a primitive of the CryptoCapability. *)
Variable sha256 : list byte -> list byte.


End Generator.

End Pkce.

(** ** The token engine behind the sample

    The sample reaches the engine only through [pca.acquireTokenByCode] and
    the like; the cache, the ID-token validator, the code exchange and the
    silent flow are written here from the design document. *)

Module Engine.

Inductive AuthError :=
| AuthorityDiscoveryError
| CryptoUnavailable
| StateMismatchError
| AuthorizationError (error error_description : string)
| NonceMismatchError
| TokenExchangeError
| InvalidSignature
| TokenExpired
| IssuerMismatch
| AudienceMismatch
| NoCredentialsError
| InteractionRequiredError
| TransientServerError.

(** Modelled from the spec: the entities of the data model (section 3), the
    attributes the flows below read or write. *)
Record Account := {
  homeAccountId : string;
  environment : string;
  username : string;
  tenantId : string;
  localAccountId : string
}.

Record IdTokenCredential := {
  idt_environment : string;
  idt_homeAccountId : string;
  idt_clientId : string;
  idt_secret : string;
  idt_realm : string
}.

Record AccessTokenCredential := {
  at_environment : string;
  at_homeAccountId : string;
  at_clientId : string;
  at_realm : string;
  at_secret : string;
  at_target : list string;
  at_cachedAt : Z;
  at_expiresOn : Z;
  at_extendedExpiresOn : Z;
  at_tokenType : string;
  at_refreshOn : option Z
}.

Record RefreshTokenCredential := {
  rt_environment : string;
  rt_homeAccountId : string;
  rt_clientId : string;
  rt_secret : string;
  rt_familyId : option string
}.

(** Modelled from the spec: the CredentialCache, one section per entity kind,
    each keyed by the attributes that identify an entity of that kind (the
    credential type is the section). *)
Record CredentialCache := {
  accounts : gmap (string * string) Account;
  idTokens : gmap (string * string * string * string) IdTokenCredential;
  accessTokens : gmap (string * string * string * string * list string) AccessTokenCredential;
  refreshTokens : gmap (string * string * string) RefreshTokenCredential
}.

Definition empty_cache : CredentialCache :=
  {| accounts := ∅; idTokens := ∅; accessTokens := ∅; refreshTokens := ∅ |}.

Definition account_key (a : Account) : string * string :=
  (homeAccountId a, environment a).
Definition idToken_key (t : IdTokenCredential) : string * string * string * string :=
  (idt_homeAccountId t, idt_environment t, idt_clientId t, idt_realm t).
Definition accessToken_key (t : AccessTokenCredential)
    : string * string * string * string * list string :=
  (at_homeAccountId t, at_environment t, at_clientId t, at_realm t, at_target t).
Definition refreshToken_key (t : RefreshTokenCredential) : string * string * string :=
  (rt_homeAccountId t, rt_environment t, rt_clientId t).

(** Modelled from the spec: the writes of the CredentialCache,
    last-writer-wins on the key. *)
Definition setAccount (a : Account) (c : CredentialCache) : CredentialCache :=
  {| accounts := <[account_key a := a]> (accounts c); idTokens := idTokens c;
     accessTokens := accessTokens c; refreshTokens := refreshTokens c |}.
Definition setIdToken (t : IdTokenCredential) (c : CredentialCache) : CredentialCache :=
  {| accounts := accounts c; idTokens := <[idToken_key t := t]> (idTokens c);
     accessTokens := accessTokens c; refreshTokens := refreshTokens c |}.
Definition setAccessToken (t : AccessTokenCredential) (c : CredentialCache) : CredentialCache :=
  {| accounts := accounts c; idTokens := idTokens c;
     accessTokens := <[accessToken_key t := t]> (accessTokens c);
     refreshTokens := refreshTokens c |}.
Definition setRefreshToken (t : RefreshTokenCredential) (c : CredentialCache) : CredentialCache :=
  {| accounts := accounts c; idTokens := idTokens c; accessTokens := accessTokens c;
     refreshTokens := <[refreshToken_key t := t]> (refreshTokens c) |}.
(** Modelled from the spec: removal and lookup of the refresh token of an
    account and client. *)
Definition removeRefreshToken (a : Account) (clientId : string) (c : CredentialCache)
    : CredentialCache :=
  {| accounts := accounts c; idTokens := idTokens c; accessTokens := accessTokens c;
     refreshTokens := delete (homeAccountId a, environment a, clientId) (refreshTokens c) |}.

Definition getRefreshToken (c : CredentialCache) (a : Account) (clientId : string)
    : option RefreshTokenCredential :=
  refreshTokens c !! (homeAccountId a, environment a, clientId).

(** Modelled from the spec: the skew rule; a token within [skew] seconds of
    its expiry counts as expired. *)
Definition expired (skew now : Z) (t : AccessTokenCredential) : bool :=
  (at_expiresOn t - skew <=? now)%Z.

(** Modelled from the spec: the matching rule of [getAccessToken]; the
    target of a candidate has to contain every requested scope. *)
Definition scopes_subset (requested target : list string) : bool :=
  forallb (fun s => existsb (String.eqb s) target) requested.

Definition matches (skew now : Z) (a : Account) (clientId : string)
    (scopes : list string) (realm : string) (t : AccessTokenCredential) : bool :=
  String.eqb (at_homeAccountId t) (homeAccountId a) &&
  String.eqb (at_environment t) (environment a) &&
  String.eqb (at_clientId t) clientId &&
  String.eqb (at_realm t) realm &&
  scopes_subset scopes (at_target t) &&
  negb (expired skew now t).

(** Modelled from the spec: among several candidates the one cached last
    wins. *)
Definition latest (candidates : list AccessTokenCredential) : option AccessTokenCredential :=
  foldr (fun t best =>
           match best with
           | None => Some t
           | Some b => if (at_cachedAt b <? at_cachedAt t)%Z then Some t else Some b
           end) None candidates.

(** Modelled from the spec: [getAccessToken] of the CredentialCache, which is
    not among the sources at hand. *)
Definition getAccessToken (skew now : Z) (c : CredentialCache) (a : Account)
    (clientId : string) (scopes : list string) (realm : string)
    : option AccessTokenCredential :=
  latest (List.filter (matches skew now a clientId scopes realm)
            (snd <$> map_to_list (accessTokens c))).

(** Modelled from the spec: ID tokens, the raw token with the claims its
    payload decodes to. *)
Record Claims := {
  iss : string;
  aud : list string;
  exp : Z;
  nonce : option string;
  oid : string;
  tid : string;
  preferred_username : string
}.

Record IdToken := {
  raw : string;
  claims : Claims
}.

Record Expected := {
  expected_issuer : string;
  expected_audience : string;
  expected_nonce : option string
}.

Record TokenResponse := {
  access_token : string;
  id_token : IdToken;
  refresh_token : option string;
  expires_in : Z;
  scope : list string
}.

Record TokenResult := {
  result_accessToken : string;
  result_expiresOn : Z;
  result_scopes : list string;
  result_account : string * string
}.

(** Modelled from the spec: what the token endpoint answers to a code
    exchange. *)
Inductive ExchangeReply :=
| ExchangeOk (r : TokenResponse)
| ExchangeNon2xx
| ExchangeTimedOut.

(** Modelled from the spec: what the token endpoint answers to a
    refresh-token redemption: tokens, a
    provider error that says the refresh token itself is invalid, expired or
    revoked (such as [invalid_grant]), or a transient network or server
    failure. *)
Inductive RedeemReply :=
| Redeemed (r : TokenResponse)
| RefreshTokenRejected (error : string)
| RedeemTransient.

Record Authority := {
  authority_environment : string;
  authority_issuer : string;
  authority_realm : string
}.

Record PendingRecord := {
  pr_state : string;
  pr_pkceCodes : B2CApp.PkceCodes;
  pr_nonce : string;
  pr_scopes : list string;
  pr_authority : Authority
}.

Record Config := {
  clientId : string;
  skew : Z
}.

Definition DEFAULT_SKEW : Z := 300.

Section Flows.

(** Signature verification is delegated to the CryptoCapability. *)
Variable verifySignature : string -> bool.
Variable cfg : Config.

(** Modelled from the spec: [validateIdToken] of the TokenValidator, with
    its checks in the order the design gives them. *)
Definition validateIdToken (now : Z) (t : IdToken) (e : Expected) : Outcome AuthError Claims :=
  let c := claims t in
  if negb (verifySignature (raw t)) then Thrown InvalidSignature
  else if (exp c + skew cfg <? now)%Z then Thrown TokenExpired
  else if negb (String.eqb (iss c) (expected_issuer e)) then Thrown IssuerMismatch
  else if negb (existsb (String.eqb (expected_audience e)) (aud c)) then Thrown AudienceMismatch
  else match expected_nonce e with
       | None => Returned c
       | Some n =>
           match nonce c with
           | Some n' => if String.eqb n' n then Returned c else Thrown NonceMismatchError
           | None => Thrown NonceMismatchError
           end
       end.

(** Modelled from the spec: the entities written after a validated token
    response. *)
Definition account_of (au : Authority) (c : Claims) : Account :=
  {| homeAccountId := oid c ++ "." ++ tid c;
     environment := authority_environment au;
     username := preferred_username c;
     tenantId := tid c;
     localAccountId := oid c |}.

Definition accessToken_of (now : Z) (a : Account) (realm : string) (r : TokenResponse)
    : AccessTokenCredential :=
  {| at_environment := environment a;
     at_homeAccountId := homeAccountId a;
     at_clientId := clientId cfg;
     at_realm := realm;
     at_secret := access_token r;
     at_target := scope r;
     at_cachedAt := now;
     at_expiresOn := (now + expires_in r)%Z;
     at_extendedExpiresOn := (now + expires_in r)%Z;
     at_tokenType := "Bearer";
     at_refreshOn := None |}.

Definition refreshToken_of (a : Account) (secret : string) : RefreshTokenCredential :=
  {| rt_environment := environment a;
     rt_homeAccountId := homeAccountId a;
     rt_clientId := clientId cfg;
     rt_secret := secret;
     rt_familyId := None |}.

Definition idToken_of (a : Account) (realm : string) (t : IdToken) : IdTokenCredential :=
  {| idt_environment := environment a;
     idt_homeAccountId := homeAccountId a;
     idt_clientId := clientId cfg;
     idt_secret := raw t;
     idt_realm := realm |}.

Definition result_of (t : AccessTokenCredential) : TokenResult :=
  {| result_accessToken := at_secret t;
     result_expiresOn := at_expiresOn t;
     result_scopes := at_target t;
     result_account := (at_homeAccountId t, at_environment t) |}.

Definition write_refresh (a : Account) (r : TokenResponse) (c : CredentialCache) : CredentialCache :=
  match refresh_token r with
  | Some secret => setRefreshToken (refreshToken_of a secret) c
  | None => c
  end.

(** Modelled from the spec: what the ID token of a code exchange is checked
    against: the issuer of
    the authority, this client as audience, the nonce of the pending request. *)
Definition expected_of (pending : PendingRecord) : Expected :=
  {| expected_issuer := authority_issuer (pr_authority pending);
     expected_audience := clientId cfg;
     expected_nonce := Some (pr_nonce pending) |}.

(** Modelled from the spec: [exchangeCodeForTokens] of the AuthCodeFlowEngine
    (the sources at hand only call [pca.acquireTokenByCode]).  [reply] is
    what the token endpoint answered to the POST. *)
Definition exchangeCodeForTokens (now : Z) (cache : CredentialCache)
    (reply : ExchangeReply) (pending : PendingRecord)
    : CredentialCache * Outcome AuthError TokenResult :=
  match reply with
  | ExchangeTimedOut => (cache, Thrown TransientServerError)
  | ExchangeNon2xx => (cache, Thrown TokenExchangeError)
  | ExchangeOk r =>
      let au := pr_authority pending in
      match validateIdToken now (id_token r) (expected_of pending) with
      | Thrown e => (cache, Thrown e)
      | Returned c =>
          let a := account_of au c in
          let realm := authority_realm au in
          let t := accessToken_of now a realm r in
          (write_refresh a r
             (setAccessToken t (setIdToken (idToken_of a realm (id_token r)) (setAccount a cache))),
           Returned (result_of t))
      end
  end.

(** Calls made to the token endpoint by the silent flow. *)
Inductive NetworkCall :=
| RedeemRefreshToken (t : RefreshTokenCredential).

(** Modelled from the spec: [acquireTokenSilent] of the SilentFlowEngine,
    which is not among the sources at hand.  [redeem] stands for the token
    endpoint. *)
Definition acquireTokenSilent (now : Z) (cache : CredentialCache)
    (redeem : RefreshTokenCredential -> RedeemReply)
    (a : Account) (scopes : list string) (au : Authority)
    : CredentialCache * Outcome AuthError TokenResult * list NetworkCall :=
  match getAccessToken (skew cfg) now cache a (clientId cfg) scopes (authority_realm au) with
  | Some t => (cache, Returned (result_of t), [])
  | None =>
      match getRefreshToken cache a (clientId cfg) with
      | None => (cache, Thrown NoCredentialsError, [])
      | Some rt =>
          match redeem rt with
          | RefreshTokenRejected _ =>
              (removeRefreshToken a (clientId cfg) cache, Thrown InteractionRequiredError,
               [RedeemRefreshToken rt])
          | RedeemTransient =>
              (cache, Thrown TransientServerError, [RedeemRefreshToken rt])
          | Redeemed r =>
              match validateIdToken now (id_token r)
                      {| expected_issuer := authority_issuer au;
                         expected_audience := clientId cfg;
                         expected_nonce := None |} with
              | Thrown e => (cache, Thrown e, [RedeemRefreshToken rt])
              | Returned _ =>
                  let t := accessToken_of now a (authority_realm au) r in
                  (write_refresh a r (setAccessToken t cache),
                   Returned (result_of t), [RedeemRefreshToken rt])
              end
          end
      end
  end.

End Flows.

End Engine.

(** ** Coalescing of concurrent refresh-token redemptions

    Callers run cooperatively: a caller that misses the cache either starts
    the redemption for its key or, when one is in flight for the same key,
    joins those waiting for it; the reply of the token endpoint is handed to
    everyone waiting. *)

Module Coalesce.

(** The key of a redemption: account (home account id and environment),
    client id and scopes. *)
Abbreviation Key := ((string * string) * string * list string)%type.

Section Redemptions.

Variable Result : Type.

Record State := {
  inflight : gmap Key (list nat);
  redemptions : list Key;
  delivered : list (nat * Result)
}.

Definition idle : State := {| inflight := ∅; redemptions := []; delivered := [] |}.

Inductive Event :=
| Miss (caller : nat) (k : Key)
| Reply (k : Key) (r : Result).

(** Modelled from the spec: the in-flight table of the SilentFlowEngine
    (the silent flow is not among the sources at hand).  [redemptions]
    logs every call made to the token endpoint. *)
Definition step (s : State) (e : Event) : State :=
  match e with
  | Miss caller k =>
      match inflight s !! k with
      | Some waiting =>
          {| inflight := <[k := waiting ++ [caller]]> (inflight s);
             redemptions := redemptions s;
             delivered := delivered s |}
      | None =>
          {| inflight := <[k := [caller]]> (inflight s);
             redemptions := redemptions s ++ [k];
             delivered := delivered s |}
      end
  | Reply k r =>
      match inflight s !! k with
      | Some waiting =>
          {| inflight := delete k (inflight s);
             redemptions := redemptions s;
             delivered := delivered s ++ ((fun c => (c, r)) <$> waiting) |}
      | None => s
      end
  end.

Definition run (s : State) (evs : list Event) : State := foldl step s evs.

(** The callers that missed on [k], in order of arrival. *)
Fixpoint callers_of (k : Key) (evs : list Event) : list nat :=
  match evs with
  | [] => []
  | Miss c k' :: rest => if decide (k' = k) then c :: callers_of k rest else callers_of k rest
  | Reply _ _ :: rest => callers_of k rest
  end.

Fixpoint replied (k : Key) (evs : list Event) : bool :=
  match evs with
  | [] => false
  | Miss _ _ :: rest => replied k rest
  | Reply k' _ :: rest => if decide (k' = k) then true else replied k rest
  end.

Definition calls_for (k : Key) (s : State) : nat :=
  length (List.filter (fun k' => bool_decide (k' = k)) (redemptions s)).

End Redemptions.

End Coalesce.

(** ** Unwrapping the content-encryption key of a JWE *)

Module JWEKey.

Section Unwrap.

(** [BrowserStringUtils.stringToArrayBuffer] and [window.crypto.subtle] are
    not part of the sources at hand: the conversion is a parameter, and so is
    what the promises of [decrypt] and [importKey] settle to. *)
Variable JsError : Type.
Variable Json : Type.
Variable ArrayBuffer : Type.
Variable CryptoKey : Type.
Variable stringToArrayBuffer : string -> ArrayBuffer.
Variable subtle_decrypt : string -> CryptoKey -> ArrayBuffer -> Outcome JsError ArrayBuffer.
Variable subtle_importKey :
  string -> ArrayBuffer -> string -> bool -> list string -> Outcome JsError CryptoKey.

(** The calls made on [window.crypto.subtle], in program order. *)
Inductive SubtleCall :=
| Decrypt (algorithm : string) (key : CryptoKey) (data : ArrayBuffer)
| ImportKey (format : string) (keyData : ArrayBuffer) (algorithm : string)
    (extractable : bool) (keyUsages : list string).

(** [unwrapContentEncryptionKey] (lines 35-44), without its [console.log]s.
    [await cek] throws when [decrypt] rejected, before [importKey] is called;
    [Promise.all([cek, sk])] then settles as [sk] does, and the value handed
    on is [sk]. *)
Definition unwrapContentEncryptionKey (jwe : JWE.JsonWebEncryption Json)
    (unwrappingKey : CryptoKey) : list SubtleCall * Outcome JsError CryptoKey :=
  let encryptedKeyBuffer := stringToArrayBuffer (JWE.encryptedKey jwe) in
  let cek := subtle_decrypt "RSA-OAEP" unwrappingKey encryptedKeyBuffer in
  match cek with
  | Thrown e => ([Decrypt "RSA-OAEP" unwrappingKey encryptedKeyBuffer], Thrown e)
  | Returned keyData =>
      let sk := subtle_importKey "jwk" keyData "AES-GCM" false ["decrypt"] in
      ([Decrypt "RSA-OAEP" unwrappingKey encryptedKeyBuffer;
        ImportKey "jwk" keyData "AES-GCM" false ["decrypt"]], sk)
  end.

End Unwrap.

Arguments Decrypt {ArrayBuffer CryptoKey} algorithm key data.
Arguments ImportKey {ArrayBuffer CryptoKey} format keyData algorithm extractable keyUsages.
Arguments unwrapContentEncryptionKey {JsError Json ArrayBuffer CryptoKey}
  stringToArrayBuffer subtle_decrypt subtle_importKey jwe unwrappingKey.

End JWEKey.

(** ** The persistence script

    The script that follows the class in the same source file (lines
    121-156): it writes through the cache plugin of the extensions library,
    reads back, and means to delete the cache file. *)

Module PersistenceScript.

Definition newline : string := String (ascii_of_nat 10) EmptyString.

(** The callback handed to [writeToStorage] (lines 131-133). *)
Definition write_callback (diskState : string) : string := "Tokens returned by MSAL".

Section Script.

(** Errors the plugin rejects with. *)
Variable PluginError : Type.

Inductive Logged :=
| LogText (s : string)
| LogError (e : PluginError)
| LogReferenceError (name : string).

(** What the script does, in program order. *)
Inductive Action :=
| Time (label : string)
| TimeEnd (label : string)
| Log (l : Logged)
| WriteToStorage (callback : string -> string)
| ReadFromStorage
| DeleteFile.

(** The script, given what the promises of [writeToStorage] and of
    [readFromStorage] settle to.  The only declaration of
    [filePersistenceWithDataProtection] is inside a comment (line 128), so
    evaluating that name in the callback of [readFromStorage] throws a
    [ReferenceError], which the [catch] chained on [readFromStorage] logs. *)
Definition script (write : Outcome PluginError unit) (read : Outcome PluginError string)
    : list Action :=
  [Time "Write and Read"; Time "Write"; WriteToStorage write_callback] ++
  match write with
  | Thrown err => [Log (LogError err)]
  | Returned _ =>
      [TimeEnd "Write"; Log (LogText ("Wrote to storage!" ++ newline ++ newline));
       Time "Read"; ReadFromStorage] ++
      match read with
      | Thrown error => [Log (LogError error)]
      | Returned data =>
          [Log (LogText ("Read from disk: " ++ data)); TimeEnd "Read";
           TimeEnd "Write and Read";
           Log (LogReferenceError "filePersistenceWithDataProtection")]
      end
  end.

(** Observations on what the script did. *)
Definition is_error_log (a : Action) : bool :=
  match a with
  | Log (LogError _) | Log (LogReferenceError _) => true
  | _ => false
  end.

Definition started (acts : list Action) : list string :=
  flat_map (fun a => match a with Time l => [l] | _ => [] end) acts.

Definition ended (acts : list Action) : list string :=
  flat_map (fun a => match a with TimeEnd l => [l] | _ => [] end) acts.

Definition logged_texts (acts : list Action) : list string :=
  flat_map (fun a => match a with Log (LogText t) => [t] | _ => [] end) acts.

Definition deletes (acts : list Action) : bool :=
  existsb (fun a => match a with DeleteFile => true | _ => false end) acts.

End Script.

Arguments LogText {PluginError} s.
Arguments LogError {PluginError} e.
Arguments LogReferenceError {PluginError} name.
Arguments Time {PluginError} label.
Arguments TimeEnd {PluginError} label.
Arguments Log {PluginError} l.
Arguments WriteToStorage {PluginError} callback.
Arguments ReadFromStorage {PluginError}.
Arguments DeleteFile {PluginError}.
Arguments script {PluginError} write read.
Arguments is_error_log {PluginError} a.
Arguments started {PluginError} acts.
Arguments ended {PluginError} acts.
Arguments logged_texts {PluginError} acts.
Arguments deletes {PluginError} acts.

End PersistenceScript.

(** ** Observations on runs of the sample application *)

Module B2CRun.

Section Observations.

Variable AuthError : Type.

Definition responses (effs : list (B2CApp.Effect AuthError)) : list (B2CApp.Response AuthError) :=
  flat_map (fun e => match e with
                     | B2CApp.Respond r => [r]
                     | _ => []
                     end) effs.

Definition auth_requests (effs : list (B2CApp.Effect AuthError)) : list B2CApp.AuthCodeRequest :=
  flat_map (fun e => match e with
                     | B2CApp.GetAuthCodeUrl r => [r]
                     | _ => []
                     end) effs.

Definition token_requests (effs : list (B2CApp.Effect AuthError)) : list B2CApp.TokenRequest :=
  flat_map (fun e => match e with
                     | B2CApp.AcquireTokenByCode r => [r]
                     | _ => []
                     end) effs.

(** The routes that never call [getAuthCode]. *)
Definition keeps_pkce (req : B2CApp.Request) : bool :=
  match req with
  | B2CApp.GET_root | B2CApp.GET_redirect _ => true
  | _ => false
  end.

(** What holds of the shared objects at start-up and, as shown below, ever
    after. *)
Definition shared_objects_ok (st : B2CApp.AppState) : Prop :=
  B2CApp.acr_redirectUri (B2CApp.authCodeRequest st) = B2CApp.redirectUri /\
  B2CApp.tr_redirectUri (B2CApp.tokenRequest st) = B2CApp.redirectUri /\
  B2CApp.challengeMethod (B2CApp.pkceCodes st) = "S256" /\
  (B2CApp.tr_authority (B2CApp.tokenRequest st) = None \/
   B2CApp.tr_authority (B2CApp.tokenRequest st) =
     Some (B2CApp.AuthorityUrl B2CApp.signUpSignIn)).

(** An authorization request as [getAuthCode] hands it to [getAuthCodeUrl]:
    the fixed redirect URI, an S256 challenge, and one of the four
    combinations of authority, scopes and state that the routes use. *)
Definition auth_request_ok (r : B2CApp.AuthCodeRequest) : Prop :=
  B2CApp.acr_redirectUri r = B2CApp.redirectUri /\
  B2CApp.acr_codeChallengeMethod r = Some "S256" /\
  (exists c, B2CApp.acr_codeChallenge r = Some c) /\
  ((B2CApp.acr_authority r = Some (B2CApp.AuthorityUrl B2CApp.resetPassword) /\
    B2CApp.acr_scopes r = Some B2CApp.SCOPES_oidc /\
    B2CApp.acr_state r = Some B2CApp.APP_STATES_password_reset) \/
   (B2CApp.acr_authority r = Some (B2CApp.AuthorityUrl B2CApp.signUpSignIn) /\
    B2CApp.acr_scopes r = Some B2CApp.SCOPES_oidc /\
    B2CApp.acr_state r = Some B2CApp.APP_STATES_login) \/
   (B2CApp.acr_authority r = Some (B2CApp.AuthorityUrl B2CApp.editProfile) /\
    B2CApp.acr_scopes r = Some B2CApp.SCOPES_oidc /\
    B2CApp.acr_state r = Some B2CApp.APP_STATES_login) \/
   (B2CApp.acr_authority r = Some (B2CApp.AuthorityUrl B2CApp.signUpSignIn) /\
    B2CApp.acr_scopes r = Some B2CApp.SCOPES_resource1 /\
    B2CApp.acr_state r = Some B2CApp.APP_STATES_call_api)).

(** A token request as [/redirect] hands it to [acquireTokenByCode]: the
    fixed redirect URI, a verifier, and either the sign-in scopes with the
    authority left as it was (never set, or set by an earlier [call_api]
    exchange), or the web API scopes with the sign-up/sign-in authority. *)
Definition token_request_ok (r : B2CApp.TokenRequest) : Prop :=
  B2CApp.tr_redirectUri r = B2CApp.redirectUri /\
  (exists v, B2CApp.tr_codeVerifier r = Some v) /\
  ((B2CApp.tr_scopes r = Some B2CApp.SCOPES_oidc /\
    (B2CApp.tr_authority r = None \/
     B2CApp.tr_authority r = Some (B2CApp.AuthorityUrl B2CApp.signUpSignIn))) \/
   (B2CApp.tr_scopes r = Some B2CApp.SCOPES_resource1 /\
    B2CApp.tr_authority r = Some (B2CApp.AuthorityUrl B2CApp.signUpSignIn))).

(** The requests that assign another [state] than [password_reset] to the
    shared authorization request: [/profile] (line 162), [/api] when it finds
    no token in store (line 169), and a response to [/redirect] with
    [state=password_reset] (line 239). *)
Definition ends_password_reset (req : B2CApp.Request) (st : B2CApp.AppState) : bool :=
  match req with
  | B2CApp.GET_profile => true
  | B2CApp.GET_api => negb (B2CApp.truthy (B2CApp.accessToken st))
  | B2CApp.GET_redirect q =>
      B2CApp.strict_eq (B2CApp.q_state q) B2CApp.APP_STATES_password_reset
  | _ => false
  end.

(** Whether a request is a response to [/redirect] with [state=call_api]. *)
Definition is_call_api_redirect (req : B2CApp.Request) : bool :=
  match req with
  | B2CApp.GET_redirect q => B2CApp.strict_eq (B2CApp.q_state q) B2CApp.APP_STATES_call_api
  | _ => false
  end.

End Observations.

Arguments responses {AuthError} effs.
Arguments auth_requests {AuthError} effs.
Arguments token_requests {AuthError} effs.

End B2CRun.

(** * Properties *)

(** ** The JWE constructor *)

Example split_three : split "." "a.b.c" = ["a"; "b"; "c"].
Proof. reflexivity. Qed.

Example split_empty : split "." "" = [""].
Proof. reflexivity. Qed.

Example split_trailing_dot : split "." "a." = ["a"; ""].
Proof. reflexivity. Qed.

Example jwe_five_segments :
  JWE.constructor (fun o : option string =>
                     match o with Some s => Returned s | None => Thrown "TypeError" end)
    (fun s : string => @Returned string string s) "h.k.iv.ct.tag" =
  ([Some "h"; Some "k"; Some "iv"; Some "ct"; Some "tag"],
   Returned {| JWE.header := "h"; JWE.encryptedKey := "k";
               JWE.initializationVector := "iv"; JWE.ciphertext := "ct";
               JWE.authenticationTag := "tag" |}).
Proof. reflexivity. Qed.

Section JWE_facts.

Context {JsError Json : Type}.
Variable decode : option string -> Outcome JsError string.
Variable JSON_parse : string -> Outcome JsError Json.

Lemma split_nonempty sep s : split sep s <> [].
Proof.
  destruct s as [|c rest]; simpl; [discriminate|].
  destruct (Ascii.eqb c sep); [discriminate|].
  destruct (split sep rest); discriminate.
Qed.

Lemma split_head sep s : exists seg, split sep s !! 0%nat = Some seg.
Proof.
  pose proof (split_nonempty sep s) as H.
  destruct (split sep s) as [|seg segs]; [congruence|]. by exists seg.
Qed.

(** C10: for every input the constructor splits on [.] and hands array
    reads 0 to 4 to the base64 decoder, in that order, stopping only where
    the decoder or [JSON.parse] throws; it returns an object only after all
    five reads were decoded; it raises nothing of its own and looks at
    nothing but the five reads (no count of segments); and an input
    with fewer than five segments whose header parses and whose present
    segments decode reaches the decoder with [undefined], whose failure is
    what the constructor fails with. *)
Theorem jwe_constructor_decodes_five_reads_unchecked (rawJwe : string) :
  let attrs := split "." rawJwe in
  let run := JWE.constructor decode JSON_parse rawJwe in
  JWE.decoder_calls run `prefix_of` JWE.segment_reads rawJwe /\
  (forall jwe, JWE.outcome run = Returned jwe ->
     JWE.decoder_calls run = JWE.segment_reads rawJwe /\
     decode (attrs !! 1%nat) = Returned (JWE.encryptedKey jwe) /\
     decode (attrs !! 2%nat) = Returned (JWE.initializationVector jwe) /\
     decode (attrs !! 3%nat) = Returned (JWE.ciphertext jwe) /\
     decode (attrs !! 4%nat) = Returned (JWE.authenticationTag jwe)) /\
  (forall e, JWE.outcome run = Thrown e ->
     (exists seg, last (JWE.decoder_calls run) = Some seg /\ decode seg = Thrown e) \/
     (exists d, decode (attrs !! 0%nat) = Returned d /\ JSON_parse d = Thrown e)) /\
  (forall rawJwe', JWE.segment_reads rawJwe' = JWE.segment_reads rawJwe ->
     JWE.constructor decode JSON_parse rawJwe' = run) /\
  ((length attrs < 5)%nat ->
   (exists d h, decode (attrs !! 0%nat) = Returned d /\ JSON_parse d = Returned h) ->
   (forall seg, In seg attrs -> exists d, decode (Some seg) = Returned d) ->
   JWE.decoder_calls run !! length attrs = Some None /\
   (forall e, decode None = Thrown e ->
      JWE.outcome run = Thrown e /\
      JWE.decoder_calls run = (Some <$> attrs) ++ [None])).
Proof.
  intros attrs run. subst run.
  unfold JWE.constructor, JWE.segment_reads, JWE.parseJweProtectedHeader,
    JWE.bind, JWE.base64Decode, JWE.lift, JWE.ret, JWE.decoder_calls, JWE.outcome.
  fold attrs.
  refine (conj _ (conj _ (conj _ (conj _ _)))).
  - destruct (decode (attrs !! 0%nat)); simpl; [|by eexists].
    destruct (JSON_parse a); simpl; [|by eexists].
    destruct (decode (attrs !! 1%nat)); simpl; [|by eexists].
    destruct (decode (attrs !! 2%nat)); simpl; [|by eexists].
    destruct (decode (attrs !! 3%nat)); simpl; [|by eexists].
    destruct (decode (attrs !! 4%nat)); simpl; by eexists.
  - intros jwe.
    destruct (decode (attrs !! 0%nat)); simpl; [|discriminate].
    destruct (JSON_parse a); simpl; [|discriminate].
    destruct (decode (attrs !! 1%nat)); simpl; [|discriminate].
    destruct (decode (attrs !! 2%nat)); simpl; [|discriminate].
    destruct (decode (attrs !! 3%nat)); simpl; [|discriminate].
    destruct (decode (attrs !! 4%nat)); simpl; [|discriminate].
    intros [= <-]. simpl. auto.
  - intros e.
    destruct (decode (attrs !! 0%nat)) eqn:E0; simpl;
      [|intros [= <-]; left; eexists; split; [reflexivity|done]].
    destruct (JSON_parse a) eqn:EP; simpl;
      [|intros [= <-]; right; eexists; split; [reflexivity|done]].
    destruct (decode (attrs !! 1%nat)) eqn:E1; simpl;
      [|intros [= <-]; left; eexists; split; [reflexivity|done]].
    destruct (decode (attrs !! 2%nat)) eqn:E2; simpl;
      [|intros [= <-]; left; eexists; split; [reflexivity|done]].
    destruct (decode (attrs !! 3%nat)) eqn:E3; simpl;
      [|intros [= <-]; left; eexists; split; [reflexivity|done]].
    destruct (decode (attrs !! 4%nat)) eqn:E4; simpl;
      [discriminate|intros [= <-]; left; eexists; split; [reflexivity|done]].
  - intros rawJwe' Hreads. unfold JWE.segment_reads in Hreads. simpl in Hreads.
    fold attrs in Hreads. injection Hreads as -> -> -> -> ->. reflexivity.
  - intros Hlen (d & h & Hd & Hh) Hpresent.
    rewrite Hd. simpl. rewrite Hh. simpl.
    assert (Hseg : forall i seg, attrs !! i = Some seg ->
              exists d', decode (attrs !! i) = Returned d').
    { intros i seg Hi. rewrite Hi. apply Hpresent.
      apply list_elem_of_In. eapply list_elem_of_lookup_2; eauto. }
    pose proof (split_nonempty "." rawJwe) as Hne. fold attrs in Hne.
    destruct attrs as [|s0 [|s1 [|s2 [|s3 [|s4 rest]]]]];
      [congruence| | | | |simpl in Hlen; lia].
    + simpl. split.
      * destruct (decode None); simpl;
          repeat match goal with |- context [decode None] => destruct (decode None); simpl end;
          reflexivity.
      * intros e He. rewrite He. simpl. done.
    + destruct (Hseg 1%nat s1 eq_refl) as [d1 H1]. rewrite H1. simpl. split.
      * destruct (decode None); simpl;
          repeat match goal with |- context [decode None] => destruct (decode None); simpl end;
          reflexivity.
      * intros e He. rewrite He. simpl. done.
    + destruct (Hseg 1%nat s1 eq_refl) as [d1 H1]. rewrite H1.
      destruct (Hseg 2%nat s2 eq_refl) as [d2 H2]. rewrite H2. simpl. split.
      * destruct (decode None); simpl;
          repeat match goal with |- context [decode None] => destruct (decode None); simpl end;
          reflexivity.
      * intros e He. rewrite He. simpl. done.
    + destruct (Hseg 1%nat s1 eq_refl) as [d1 H1]. rewrite H1.
      destruct (Hseg 2%nat s2 eq_refl) as [d2 H2]. rewrite H2.
      destruct (Hseg 3%nat s3 eq_refl) as [d3 H3]. rewrite H3. simpl. split.
      * destruct (decode None); simpl; reflexivity.
      * intros e He. rewrite He. simpl. done.
Qed.

End JWE_facts.

Lemma jwe_constructor_short_input_reaches_decoder_with_undefined :
  let decode := fun o : option string =>
    match o with Some s => Returned s | None => Thrown "TypeError" end in
  let run := JWE.constructor decode (fun s : string => @Returned string string s) "e30.a.b" in
  JWE.decoder_calls run !! 3%nat = Some None /\
  JWE.outcome run = Thrown "TypeError".
Proof.
  intros decode run.
  pose proof (jwe_constructor_decodes_five_reads_unchecked
                decode (fun s : string => @Returned string string s) "e30.a.b")
    as (_ & _ & _ & _ & H).
  destruct H as [Hcall Hthrow].
  - simpl. lia.
  - exists "e30", "e30". split; reflexivity.
  - intros seg _. exists seg. reflexivity.
  - split; [exact Hcall|]. apply (Hthrow "TypeError"). reflexivity.
Defined.

(** ** The sample application *)

Section App_facts.

Context {AuthError : Type}.
Import B2CApp.

Implicit Types (st : AppState) (env : Env AuthError) (q : Query)
  (r : AuthenticationResult).

Lemma strict_eq_true v s : strict_eq v s = true <-> v = Some s.
Proof.
  destruct v as [s'|]; simpl; [|split; discriminate].
  rewrite String.eqb_eq. split; [congruence|]. by intros [= ->].
Qed.

Lemma truthy_true v : truthy v = true <-> exists s, v = Some s /\ s <> "".
Proof.
  destruct v as [s|]; simpl.
  - rewrite negb_true_iff, String.eqb_neq. split.
    + intros H. by exists s.
    + by intros (s' & [= <-] & H).
  - split; [discriminate|]. by intros (s & ? & _).
Qed.

Lemma truthy_false v : truthy v = false <-> v = None \/ v = Some "".
Proof.
  destruct v as [s|]; simpl.
  - rewrite negb_false_iff, String.eqb_eq. split.
    + intros ->. by right.
    + intros [?|[= ->]]; done.
  - split; [by left|done].
Qed.

(** [getAuthCode] touches neither the stored token nor the token request,
    and never calls the web API. *)
Lemma getAuthCode_accessToken authority scopes state env st :
  accessToken (fst (getAuthCode authority scopes state env st)) = accessToken st.
Proof.
  unfold getAuthCode. destruct (env_pkce env); [|reflexivity].
  destruct (env_authCodeUrl env); reflexivity.
Qed.

Lemma getAuthCode_api_tokens authority scopes state env st :
  api_tokens (snd (getAuthCode authority scopes state env st)) = [].
Proof.
  unfold getAuthCode. destruct (env_pkce env); [|reflexivity].
  destruct (env_authCodeUrl env); reflexivity.
Qed.

Lemma getAuthCode_no_exchange authority scopes state env st :
  exchange_verifiers (snd (getAuthCode authority scopes state env st)) = [] /\
  existsb is_code_exchange (snd (getAuthCode authority scopes state env st)) = false.
Proof.
  unfold getAuthCode. destruct (env_pkce env); [|split; reflexivity].
  destruct (env_authCodeUrl env); split; reflexivity.
Qed.

Lemma getAuthCode_sent_states authority scopes state env st s :
  In s (sent_states (snd (getAuthCode authority scopes state env st))) -> s = Some state.
Proof.
  unfold getAuthCode. destruct (env_pkce env); [|intros []].
  destruct (env_authCodeUrl env); simpl; intros [<-|[]]; reflexivity.
Qed.

(** The fast path of [/api], read off the handler. *)
Lemma get_api_hit env st token :
  accessToken st = Some token -> token <> "" ->
  get_api env st =
    (st, [CallWebApi webApiUri token;
          Respond (Render "api" (ApiParams false (env_apiResponse env)))]).
Proof.
  intros Hst Hne. unfold get_api. rewrite Hst. simpl.
  apply String.eqb_neq in Hne. rewrite Hne. reflexivity.
Qed.

Lemma get_api_miss env st :
  truthy (accessToken st) = false ->
  get_api env st =
    getAuthCode (AuthorityUrl signUpSignIn) SCOPES_resource1 APP_STATES_call_api env st.
Proof.
  intros H. unfold get_api. destruct (accessToken st) as [token|]; [|reflexivity].
  rewrite H. reflexivity.
Qed.

Lemma get_redirect_call_api_ok q env st r :
  strict_eq (q_state q) APP_STATES_call_api = true ->
  env_token env = Returned r ->
  get_redirect q env st =
    (set_accessToken (Some (res_accessToken r)) (prepare_call_api q st),
     [AcquireTokenByCode (tokenRequest (prepare_call_api q st));
      CallWebApi webApiUri (res_accessToken r);
      Respond (Render "api" (ApiParams false (env_apiResponse env)))]).
Proof.
  intros Hq Hr. apply strict_eq_true in Hq. unfold get_redirect.
  rewrite Hq, Hr. reflexivity.
Qed.

(** C1, as amended: a token obtained by the [call_api] code exchange is
    stored, and from then on the fast path of [/api] hands it to the web API
    whenever it is a non-empty string, whatever its [expiresOn] and whatever
    the time of the call (the handler keeps no expiry and reads no clock);
    only a missing token (null or empty) is a miss, and that starts a new
    authorization-code request. *)
Theorem api_fast_path_serves_stored_token_whatever_its_expiry
    q env env' st r :
  strict_eq (q_state q) APP_STATES_call_api = true ->
  env_token env = Returned r ->
  res_accessToken r <> "" ->
  let st1 := fst (get_redirect q env st) in
  accessToken st1 = Some (res_accessToken r) /\
  get_api env' st1 =
    (st1, [CallWebApi webApiUri (res_accessToken r);
           Respond (Render "api" (ApiParams false (env_apiResponse env')))]) /\
  (forall st', truthy (accessToken st') = false ->
     get_api env' st' =
       getAuthCode (AuthorityUrl signUpSignIn) SCOPES_resource1 APP_STATES_call_api env' st').
Proof.
  intros Hq Hr Hne st1. subst st1.
  rewrite (get_redirect_call_api_ok q env st r Hq Hr). simpl.
  split; [reflexivity|]. split.
  - apply get_api_hit; [reflexivity|assumption].
  - intros st'. apply get_api_miss.
Qed.

End App_facts.

(** A token that expires at second 3600 is acquired through [/redirect]; at
    second 3500, inside the 300 s skew, [/api] still hands it to the web API. *)
Lemma api_serves_token_within_skew_of_expiry :
  let r := {| B2CApp.res_accessToken := "eyJ0eXAi"; B2CApp.res_username := "user";
              B2CApp.res_expiresOn := 3600; B2CApp.res_scopes := B2CApp.SCOPES_resource1 |} in
  let q := {| B2CApp.q_state := Some "call_api"; B2CApp.q_code := Some "code";
              B2CApp.q_error := None; B2CApp.q_error_description := None |} in
  let env := {| B2CApp.env_pkce := Thrown tt; B2CApp.env_authCodeUrl := Thrown tt;
                B2CApp.env_token := Returned r; B2CApp.env_apiResponse := "{}" |} in
  let stored := fst (B2CApp.get_redirect q env B2CApp.initial) in
  let now := 3500%Z in
  (B2CApp.res_expiresOn r - Engine.DEFAULT_SKEW <= now)%Z /\
  B2CApp.api_tokens (snd (B2CApp.get_api env stored)) = [B2CApp.res_accessToken r].
Proof. split; [vm_compute; discriminate|reflexivity]. Qed.

Lemma api_fast_path_serves_stored_token_example :
  let r := {| B2CApp.res_accessToken := "eyJ0eXAi"; B2CApp.res_username := "user";
              B2CApp.res_expiresOn := 3600; B2CApp.res_scopes := B2CApp.SCOPES_resource1 |} in
  let q := {| B2CApp.q_state := Some "call_api"; B2CApp.q_code := Some "code";
              B2CApp.q_error := None; B2CApp.q_error_description := None |} in
  let env := {| B2CApp.env_pkce := Thrown tt; B2CApp.env_authCodeUrl := Thrown tt;
                B2CApp.env_token := Returned r; B2CApp.env_apiResponse := "{}" |} in
  let st1 := fst (B2CApp.get_redirect q env B2CApp.initial) in
  B2CApp.accessToken st1 = Some "eyJ0eXAi" /\
  B2CApp.get_api env st1 =
    (st1, [B2CApp.CallWebApi B2CApp.webApiUri "eyJ0eXAi";
           B2CApp.Respond (B2CApp.Render "api" (B2CApp.ApiParams false "{}"))]).
Proof.
  intros r q env st1.
  destruct (api_fast_path_serves_stored_token_whatever_its_expiry q env env B2CApp.initial r)
    as (H1 & H2 & _).
  - reflexivity.
  - reflexivity.
  - discriminate.
  - split; [exact H1|exact H2].
Defined.

Section App_claims.

Context {AuthError : Type}.
Import B2CApp.

Implicit Types (st : AppState) (env : Env AuthError) (q : Query)
  (r : AuthenticationResult).

Lemma login_rejected_keeps q (error : AuthError) st :
  accessToken (fst (login_rejected q error st)) = accessToken st /\
  pkceCodes (fst (login_rejected q error st)) = pkceCodes st /\
  tokenRequest (fst (login_rejected q error st)) = tokenRequest st /\
  exchange_verifiers (snd (login_rejected q error st)) = [] /\
  api_tokens (snd (login_rejected q error st)) = [] /\
  sent_states (snd (login_rejected q error st)) = [].
Proof.
  unfold login_rejected. destruct (truthy (q_error q)); [|by repeat split].
  destruct (q_error_description q) as [d|]; [|by repeat split].
  destruct (includes "AADB2C90118" d); by repeat split.
Qed.

(** The three values of [APP_STATES] are told apart by [===]. *)
Lemma get_redirect_cases q env st :
  (q_state q = Some APP_STATES_login /\
   get_redirect q env st =
     match env_token env with
     | Returned response =>
         (prepare_login q st,
          [AcquireTokenByCode (tokenRequest (prepare_login q st));
           Respond (Render "api" (UserParams false (res_username response)))])
     | Thrown error =>
         (fst (login_rejected q error (prepare_login q st)),
          AcquireTokenByCode (tokenRequest (prepare_login q st))
            :: snd (login_rejected q error (prepare_login q st)))
     end) \/
  (q_state q = Some APP_STATES_call_api /\
   get_redirect q env st =
     match env_token env with
     | Returned response =>
         (set_accessToken (Some (res_accessToken response)) (prepare_call_api q st),
          [AcquireTokenByCode (tokenRequest (prepare_call_api q st));
           CallWebApi webApiUri (res_accessToken response);
           Respond (Render "api" (ApiParams false (env_apiResponse env)))])
     | Thrown error =>
         (prepare_call_api q st,
          [AcquireTokenByCode (tokenRequest (prepare_call_api q st));
           ConsoleLog error;
           Respond (StatusSend 500 (BodyError error))])
     end) \/
  (q_state q = Some APP_STATES_password_reset /\
   snd (get_redirect q env st) = [Respond (Redirect "/login")] /\
   accessToken (fst (get_redirect q env st)) = accessToken st /\
   pkceCodes (fst (get_redirect q env st)) = pkceCodes st /\
   tokenRequest (fst (get_redirect q env st)) = tokenRequest st) \/
  (q_state q <> Some APP_STATES_login /\
   q_state q <> Some APP_STATES_call_api /\
   q_state q <> Some APP_STATES_password_reset /\
   get_redirect q env st = (st, [Respond (StatusSend 500 (BodyText "Unknown"))])).
Proof.
  unfold get_redirect.
  destruct (strict_eq (q_state q) APP_STATES_login) eqn:E1.
  { left. apply strict_eq_true in E1. split; [assumption|].
    destruct (env_token env); [reflexivity|].
    destruct (login_rejected q e (prepare_login q st)); reflexivity. }
  destruct (strict_eq (q_state q) APP_STATES_call_api) eqn:E2.
  { right; left. apply strict_eq_true in E2. split; [assumption|].
    destruct (env_token env); reflexivity. }
  destruct (strict_eq (q_state q) APP_STATES_password_reset) eqn:E3.
  { right; right; left. apply strict_eq_true in E3. by repeat split. }
  right; right; right.
  repeat split; try (intros H; apply strict_eq_true in H; congruence).
Qed.

Lemma handle_accessToken_changes req env st :
  accessToken (fst (handle req env st)) <> accessToken st ->
  exists q r, req = GET_redirect q /\
    q_state q = Some APP_STATES_call_api /\
    env_token env = Returned r /\
    handle req env st =
      (set_accessToken (Some (res_accessToken r)) (prepare_call_api q st),
       [AcquireTokenByCode (tokenRequest (prepare_call_api q st));
        CallWebApi webApiUri (res_accessToken r);
        Respond (Render "api" (ApiParams false (env_apiResponse env)))]).
Proof.
  destruct req as [| | | |q]; simpl.
  - congruence.
  - unfold get_login. destruct (strict_eq _ _); rewrite getAuthCode_accessToken; congruence.
  - unfold get_profile. rewrite getAuthCode_accessToken; congruence.
  - unfold get_api. destruct (accessToken st) as [token|] eqn:E.
    + destruct (negb (truthy (Some token))); simpl;
        [rewrite getAuthCode_accessToken|]; congruence.
    + rewrite getAuthCode_accessToken; congruence.
  - destruct (get_redirect_cases q env st)
      as [[Hq ->]|[[Hq ->]|[(Hq & _ & Hk & _)|(_ & _ & _ & ->)]]].
    + destruct (env_token env); simpl; [congruence|].
      destruct (login_rejected_keeps q e (prepare_login q st)) as [-> _]. simpl. congruence.
    + destruct (env_token env) as [r|e]; simpl; [|congruence].
      intros _. exists q, r. by repeat split.
    + congruence.
    + simpl. congruence.
Qed.

(** C5, as amended: the fast path of [/api] is a hit exactly when a non-empty
    access token is stored, and then serves it with no call to the authority
    or the token endpoint and no change of state; client id, realm, scopes and
    expiry are not compared.  The stored token only ever comes from a
    [call_api] code exchange, which asks for [SCOPES.resource1] at the
    sign-up/sign-in authority. *)
Theorem api_fast_path_hits_iff_token_stored env st :
  (forall token, In token (api_tokens (snd (get_api env st))) <->
     accessToken st = Some token /\ token <> "") /\
  (truthy (accessToken st) = true ->
     fst (get_api env st) = st /\
     List.filter is_acquisition (snd (get_api env st)) = []) /\
  (forall req env0 st0,
     accessToken (fst (handle req env0 st0)) <> accessToken st0 ->
     exists q r treq,
       req = GET_redirect q /\ q_state q = Some APP_STATES_call_api /\
       env_token env0 = Returned r /\
       accessToken (fst (handle req env0 st0)) = Some (res_accessToken r) /\
       In (AcquireTokenByCode treq) (snd (handle req env0 st0)) /\
       tr_scopes treq = Some SCOPES_resource1 /\
       tr_authority treq = Some (AuthorityUrl signUpSignIn)).
Proof.
  refine (conj _ (conj _ _)).
  - intros token. destruct (truthy (accessToken st)) eqn:E.
    + apply truthy_true in E as (s & Hs & Hne).
      rewrite (get_api_hit env st s Hs Hne). simpl. split.
      * intros [<-|[]]. by split.
      * intros [H _]. left. congruence.
    + rewrite (get_api_miss env st E), getAuthCode_api_tokens. split; [intros []|].
      intros [H Hne]. apply truthy_false in E as [E|E]; congruence.
  - intros E. apply truthy_true in E as (s & Hs & Hne).
    rewrite (get_api_hit env st s Hs Hne). by split.
  - intros req env0 st0 H.
    destruct (handle_accessToken_changes req env0 st0 H) as (q & r & -> & Hq & Hr & Heq).
    exists q, r, (tokenRequest (prepare_call_api q st0)).
    rewrite Heq. simpl. repeat split; auto.
Qed.

(** C2, as amended: [/redirect] dispatches on the value of the [state]
    parameter alone.  It proceeds to a code exchange exactly when [state] is
    ["login"] or ["call_api"], whether or not an authorization request with
    that state is pending; ["password_reset"] is answered with a redirect to
    [/login] and no exchange; any other or missing [state] is answered with
    status 500 and body ["Unknown"], the application state untouched.  Every
    authorization request the application builds carries one of these three
    values as its [state], so a response that returns it unchanged is
    dispatched on the value that was sent. *)
Theorem redirect_dispatches_on_state_value q env st :
  (existsb is_code_exchange (snd (get_redirect q env st)) = true <->
     q_state q = Some APP_STATES_login \/ q_state q = Some APP_STATES_call_api) /\
  (q_state q = Some APP_STATES_password_reset ->
     snd (get_redirect q env st) = [Respond (Redirect "/login")]) /\
  (q_state q <> Some APP_STATES_login ->
   q_state q <> Some APP_STATES_call_api ->
   q_state q <> Some APP_STATES_password_reset ->
     get_redirect q env st = (st, [Respond (StatusSend 500 (BodyText "Unknown"))])) /\
  (forall req env0 st0 s,
     In s (sent_states (snd (handle req env0 st0))) ->
     s = Some APP_STATES_login \/ s = Some APP_STATES_call_api \/
     s = Some APP_STATES_password_reset).
Proof.
  refine (conj _ (conj _ (conj _ _))).
  - destruct (get_redirect_cases q env st)
      as [[Hq ->]|[[Hq ->]|[(Hq & -> & _)|(H1 & H2 & _ & ->)]]].
    + destruct (env_token env); simpl; split; auto.
    + destruct (env_token env); simpl; split; auto.
    + simpl. split; [discriminate|]. rewrite Hq. intros [[=]|[=]].
    + simpl. split; [discriminate|]. intros [?|?]; congruence.
  - intros Hq.
    destruct (get_redirect_cases q env st)
      as [[Hq' _]|[[Hq' _]|[(_ & -> & _)|(_ & _ & H3 & _)]]];
      try reflexivity; try congruence; rewrite Hq in Hq'; discriminate.
  - intros H1 H2 H3.
    destruct (get_redirect_cases q env st)
      as [[Hq _]|[[Hq _]|[(Hq & _)|(_ & _ & _ & ->)]]]; try congruence.
  - intros req env0 st0 s. destruct req as [| | | |q0]; simpl.
    + intros [].
    + unfold get_login. destruct (strict_eq _ _); intros H;
        apply getAuthCode_sent_states in H; auto.
    + unfold get_profile. intros H. apply getAuthCode_sent_states in H; auto.
    + unfold get_api. destruct (accessToken st0) as [token|].
      * destruct (negb (truthy (Some token))); simpl.
        -- intros H. apply getAuthCode_sent_states in H; auto.
        -- intros [].
      * intros H. apply getAuthCode_sent_states in H; auto.
    + destruct (get_redirect_cases q0 env0 st0)
        as [[Hq ->]|[[Hq ->]|[(Hq & -> & _)|(_ & _ & _ & ->)]]].
      * destruct (env_token env0); simpl; [intros []|].
        destruct (login_rejected_keeps q0 e (prepare_login q0 st0))
          as (_ & _ & _ & _ & _ & ->). intros [].
      * destruct (env_token env0); simpl; intros [].
      * intros [].
      * intros [].
Qed.

Lemma getAuthCode_pkceCodes authority scopes state env st :
  match env_pkce env with
  | Returned codes =>
      pkceCodes (fst (getAuthCode authority scopes state env st)) =
        {| challengeMethod := challengeMethod (pkceCodes st);
           verifier := fst codes; challenge := snd codes |} /\
      exists request,
        In (GetAuthCodeUrl request) (snd (getAuthCode authority scopes state env st)) /\
        acr_codeChallenge request = Some (snd codes) /\
        acr_codeChallengeMethod request = Some (challengeMethod (pkceCodes st))
  | Thrown _ =>
      pkceCodes (fst (getAuthCode authority scopes state env st)) = pkceCodes st
  end.
Proof.
  unfold getAuthCode. destruct (env_pkce env) as [codes|e]; [|reflexivity].
  destruct (env_authCodeUrl env); simpl; (split; [reflexivity|]);
    eexists; (split; [right; left; reflexivity|]); split; reflexivity.
Qed.

Lemma get_redirect_pkceCodes q env st :
  pkceCodes (fst (get_redirect q env st)) = pkceCodes st /\
  forall v, In v (exchange_verifiers (snd (get_redirect q env st))) ->
            v = Some (verifier (pkceCodes st)).
Proof.
  destruct (get_redirect_cases q env st)
    as [[Hq ->]|[[Hq ->]|[(Hq & -> & _ & Hp & _)|(_ & _ & _ & ->)]]].
  - destruct (env_token env); simpl.
    + split; [reflexivity|]. intros v [<-|[]]. reflexivity.
    + destruct (login_rejected_keeps q e (prepare_login q st))
        as (_ & -> & _ & -> & _). simpl.
      split; [reflexivity|]. intros v [<-|[]]. reflexivity.
  - destruct (env_token env); simpl; (split; [reflexivity|]);
      intros v [<-|[]]; reflexivity.
  - split; [assumption|]. intros v [].
  - split; [reflexivity|]. intros v [].
Qed.

Lemma getAuthCode_pkceCodes_cases authority scopes state env st :
  pkceCodes (fst (getAuthCode authority scopes state env st)) = pkceCodes st \/
  exists v c, env_pkce env = Returned (v, c) /\
    pkceCodes (fst (getAuthCode authority scopes state env st)) =
      {| challengeMethod := challengeMethod (pkceCodes st);
         verifier := v; challenge := c |}.
Proof.
  pose proof (getAuthCode_pkceCodes authority scopes state env st) as H.
  destruct (env_pkce env) as [[v c]|e]; [|by left].
  right. exists v, c. split; [reflexivity|]. apply H.
Qed.

Lemma handle_pkceCodes req env st :
  pkceCodes (fst (handle req env st)) = pkceCodes st \/
  exists v c, env_pkce env = Returned (v, c) /\
    pkceCodes (fst (handle req env st)) =
      {| challengeMethod := challengeMethod (pkceCodes st);
         verifier := v; challenge := c |}.
Proof.
  destruct req as [| | | |q]; simpl.
  - by left.
  - unfold get_login. destruct (strict_eq _ _); apply getAuthCode_pkceCodes_cases.
  - apply getAuthCode_pkceCodes_cases.
  - unfold get_api. destruct (accessToken st) as [token|];
      [|apply getAuthCode_pkceCodes_cases].
    destruct (negb (truthy (Some token))); [apply getAuthCode_pkceCodes_cases|by left].
  - left. apply get_redirect_pkceCodes.
Qed.


(** C3, as amended: every authorization request started by [getAuthCode]
    carries the challenge of the pair that [generatePkceCodes] returned for
    it, and that pair replaces the one held in [app.locals.pkceCodes]; the
    pair is not discarded afterwards: [/redirect] leaves it in place whether
    the code exchange succeeds or fails, every code exchange sends the
    verifier currently held, and no route other than one that generates a new
    pair changes it. *)
Theorem pkce_codes_replaced_by_getAuthCode_kept_by_redirect :
  (forall authority scopes state env st v c,
     env_pkce env = Returned (v, c) ->
     pkceCodes (fst (getAuthCode authority scopes state env st)) =
       {| challengeMethod := challengeMethod (pkceCodes st);
          verifier := v; challenge := c |} /\
     exists request,
       In (GetAuthCodeUrl request) (snd (getAuthCode authority scopes state env st)) /\
       acr_codeChallenge request = Some c /\
       acr_codeChallengeMethod request = Some (challengeMethod (pkceCodes st))) /\
  (forall q env st,
     pkceCodes (fst (get_redirect q env st)) = pkceCodes st /\
     forall v, In v (exchange_verifiers (snd (get_redirect q env st))) ->
               v = Some (verifier (pkceCodes st))) /\
  (forall req env st,
     pkceCodes (fst (handle req env st)) = pkceCodes st \/
     exists v c, env_pkce env = Returned (v, c) /\
       pkceCodes (fst (handle req env st)) =
         {| challengeMethod := challengeMethod (pkceCodes st);
            verifier := v; challenge := c |}).
Proof.
  refine (conj _ (conj _ _)).
  - intros authority scopes state env st v c Hc.
    pose proof (getAuthCode_pkceCodes authority scopes state env st) as H.
    rewrite Hc in H. exact H.
  - apply get_redirect_pkceCodes.
  - apply handle_pkceCodes.
Qed.

(** The sample half of C7: with a token in store, two requests to [/api] in
    a row leave the state as it was, hand the same token to the web API and
    make no call to the authority or the token endpoint. *)
Lemma get_api_twice env1 env2 st :
  truthy (accessToken st) = true ->
  fst (get_api env1 st) = st /\
  fst (get_api env2 (fst (get_api env1 st))) = st /\
  api_tokens (snd (get_api env2 (fst (get_api env1 st)))) =
    api_tokens (snd (get_api env1 st)) /\
  (exists token, api_tokens (snd (get_api env1 st)) = [token] /\
                 accessToken st = Some token) /\
  List.filter is_acquisition (snd (get_api env1 st)) = [] /\
  List.filter is_acquisition (snd (get_api env2 (fst (get_api env1 st)))) = [].
Proof.
  intros E. apply truthy_true in E as (s & Hs & Hne).
  rewrite (get_api_hit env1 st s Hs Hne). simpl.
  rewrite (get_api_hit env2 st s Hs Hne). simpl.
  repeat split. by exists s.
Qed.

End App_claims.

(** Concrete runs of the sample.  Errors are the one-element type here. *)

(** No authorization request was ever built, yet a request to [/redirect]
    with [state=login] goes on to the code exchange; and with a [login]
    request pending, a response carrying [state=call_api] does too. *)
Lemma redirect_exchanges_code_without_matching_request :
  let q := {| B2CApp.q_state := Some "login"; B2CApp.q_code := Some "injected";
              B2CApp.q_error := None; B2CApp.q_error_description := None |} in
  let q' := {| B2CApp.q_state := Some "call_api"; B2CApp.q_code := Some "injected";
               B2CApp.q_error := None; B2CApp.q_error_description := None |} in
  let env := {| B2CApp.env_pkce := Returned ("v1", "c1");
                B2CApp.env_authCodeUrl := Returned "https://login.example/authorize";
                B2CApp.env_token := Thrown tt; B2CApp.env_apiResponse := "{}" |} in
  let pending := fst (B2CApp.get_login env B2CApp.initial) in
  (B2CApp.acr_state (B2CApp.authCodeRequest B2CApp.initial) = None /\
   existsb B2CApp.is_code_exchange (snd (B2CApp.get_redirect q env B2CApp.initial)) = true) /\
  (B2CApp.acr_state (B2CApp.authCodeRequest pending) = Some "login" /\
   existsb B2CApp.is_code_exchange (snd (B2CApp.get_redirect q' env pending)) = true).
Proof. repeat split. Qed.

Lemma redirect_unknown_state_example :
  let q := {| B2CApp.q_state := Some "bogus"; B2CApp.q_code := Some "code";
              B2CApp.q_error := None; B2CApp.q_error_description := None |} in
  let env := {| B2CApp.env_pkce := Thrown tt; B2CApp.env_authCodeUrl := Thrown tt;
                B2CApp.env_token := Thrown tt; B2CApp.env_apiResponse := "{}" |} in
  B2CApp.get_redirect q env B2CApp.initial =
    (B2CApp.initial,
     [B2CApp.Respond (B2CApp.StatusSend 500 (B2CApp.BodyText "Unknown"))]).
Proof.
  intros q env.
  destruct (redirect_dispatches_on_state_value q env B2CApp.initial) as (_ & _ & H & _).
  apply H; discriminate.
Defined.

(** One sign-in, then two responses to [/redirect]: both code exchanges send
    the verifier of that one sign-in, which is still held afterwards.  And
    with two sign-ins outstanding, the responses to both are exchanged with
    the verifier of the second. *)
Lemma verifier_kept_and_sent_again_after_code_exchange :
  let r := {| B2CApp.res_accessToken := "at"; B2CApp.res_username := "user";
              B2CApp.res_expiresOn := 3600; B2CApp.res_scopes := B2CApp.SCOPES_oidc |} in
  let env : B2CApp.Env unit :=
    {| B2CApp.env_pkce := Returned ("verifier-1", "challenge-1");
       B2CApp.env_authCodeUrl := Returned "https://login.example/authorize";
       B2CApp.env_token := Returned r; B2CApp.env_apiResponse := "{}" |} in
  let back code := B2CApp.GET_redirect
    {| B2CApp.q_state := Some "login"; B2CApp.q_code := Some code;
       B2CApp.q_error := None; B2CApp.q_error_description := None |} in
  let run := B2CApp.serve
    [(B2CApp.GET_login, env); (back "code-1", env); (back "code-2", env)]
    B2CApp.initial in
  let env2 : B2CApp.Env unit :=
    {| B2CApp.env_pkce := Returned ("verifier-2", "challenge-2");
       B2CApp.env_authCodeUrl := Returned "https://login.example/authorize";
       B2CApp.env_token := Returned r; B2CApp.env_apiResponse := "{}" |} in
  let run2 := B2CApp.serve
    [(B2CApp.GET_login, env); (B2CApp.GET_login, env2);
     (back "code-1", env); (back "code-2", env)]
    B2CApp.initial in
  (B2CApp.exchange_verifiers (snd run) = [Some "verifier-1"; Some "verifier-1"] /\
   B2CApp.verifier (B2CApp.pkceCodes (fst run)) = "verifier-1") /\
  B2CApp.exchange_verifiers (snd run2) = [Some "verifier-2"; Some "verifier-2"].
Proof. repeat split. Qed.

Lemma pkce_codes_replaced_example :
  let env := {| B2CApp.env_pkce := Returned ("verifier-1", "challenge-1");
                B2CApp.env_authCodeUrl := Returned "https://login.example/authorize";
                B2CApp.env_token := Thrown tt; B2CApp.env_apiResponse := "{}" |} in
  B2CApp.pkceCodes
    (fst (B2CApp.getAuthCode (B2CApp.AuthorityUrl B2CApp.signUpSignIn)
            B2CApp.SCOPES_oidc "login" env B2CApp.initial)) =
    {| B2CApp.challengeMethod := "S256"; B2CApp.verifier := "verifier-1";
       B2CApp.challenge := "challenge-1" |}.
Proof.
  intros env.
  destruct (@pkce_codes_replaced_by_getAuthCode_kept_by_redirect unit) as (H & _ & _).
  destruct (H (B2CApp.AuthorityUrl B2CApp.signUpSignIn) B2CApp.SCOPES_oidc "login"
              env B2CApp.initial "verifier-1" "challenge-1") as [Hp _].
  - reflexivity.
  - exact Hp.
Defined.

(** A token granted for other scopes than the web API needs, and one that
    has expired, are both served by the fast path. *)
Lemma api_serves_token_of_other_scopes_or_expired :
  let q := {| B2CApp.q_state := Some "call_api"; B2CApp.q_code := Some "code";
              B2CApp.q_error := None; B2CApp.q_error_description := None |} in
  let env r := {| B2CApp.env_pkce := Thrown tt; B2CApp.env_authCodeUrl := Thrown tt;
                  B2CApp.env_token := Returned r; B2CApp.env_apiResponse := "{}" |} in
  let narrow := {| B2CApp.res_accessToken := "token-openid"; B2CApp.res_username := "user";
                   B2CApp.res_expiresOn := 3600; B2CApp.res_scopes := ["openid"] |} in
  let stale := {| B2CApp.res_accessToken := "token-stale"; B2CApp.res_username := "user";
                  B2CApp.res_expiresOn := 3600;
                  B2CApp.res_scopes := B2CApp.SCOPES_resource1 |} in
  let now := 10000%Z in
  (Engine.scopes_subset B2CApp.SCOPES_resource1 (B2CApp.res_scopes narrow) = false /\
   B2CApp.api_tokens
     (snd (B2CApp.get_api (env narrow)
             (fst (B2CApp.get_redirect q (env narrow) B2CApp.initial)))) =
     ["token-openid"]) /\
  ((B2CApp.res_expiresOn stale - Engine.DEFAULT_SKEW <= now)%Z /\
   B2CApp.api_tokens
     (snd (B2CApp.get_api (env stale)
             (fst (B2CApp.get_redirect q (env stale) B2CApp.initial)))) =
     ["token-stale"]).
Proof. repeat split. vm_compute. discriminate. Qed.

Lemma api_fast_path_hit_example :
  let env := {| B2CApp.env_pkce := Thrown tt; B2CApp.env_authCodeUrl := Thrown tt;
                B2CApp.env_token := Thrown tt; B2CApp.env_apiResponse := "{}" |} in
  let st := B2CApp.set_accessToken (Some "token") B2CApp.initial in
  In "token" (B2CApp.api_tokens (snd (B2CApp.get_api env st))) /\
  fst (B2CApp.get_api env st) = st.
Proof.
  intros env st.
  destruct (api_fast_path_hits_iff_token_stored env st) as (Hiff & Hhit & _).
  split.
  - apply Hiff. split; [reflexivity|discriminate].
  - apply Hhit. reflexivity.
Defined.

(** ** The engine *)

(** The scenario of the design document: a token for client ["C1"], realm
    ["T1"] and scope [read], expiring in 3600 s, is returned for [read], is a
    miss for [read] and [write], and is a miss once inside the skew. *)
Example getAccessToken_read_scenario :
  let a := {| Engine.homeAccountId := "u1.T1"; Engine.environment := "login.example";
              Engine.username := "user"; Engine.tenantId := "T1";
              Engine.localAccountId := "u1" |} in
  let t := {| Engine.at_environment := "login.example"; Engine.at_homeAccountId := "u1.T1";
              Engine.at_clientId := "C1"; Engine.at_realm := "T1";
              Engine.at_secret := "at-secret"; Engine.at_target := ["read"];
              Engine.at_cachedAt := 0; Engine.at_expiresOn := 3600;
              Engine.at_extendedExpiresOn := 3600; Engine.at_tokenType := "Bearer";
              Engine.at_refreshOn := None |} in
  let cache := Engine.setAccessToken t Engine.empty_cache in
  Engine.getAccessToken 300 0 cache a "C1" ["read"] "T1" = Some t /\
  Engine.getAccessToken 300 0 cache a "C1" ["read"; "write"] "T1" = None /\
  Engine.getAccessToken 300 3300 cache a "C1" ["read"] "T1" = None /\
  Engine.getAccessToken 300 3299 cache a "C1" ["read"] "T1" = Some t.
Proof. repeat split. Qed.

Section Engine_facts.

Import Engine.

Variable verifySignature : string -> bool.
Variable cfg : Config.

Lemma latest_In candidates :
  candidates <> [] -> exists t, latest candidates = Some t /\ In t candidates.
Proof.
  induction candidates as [|t rest IH]; [congruence|]. intros _.
  unfold latest in *. simpl.
  destruct (foldr _ None rest) as [b|] eqn:E.
  - destruct rest as [|t' rest']; [discriminate|].
    destruct IH as (b' & [= <-] & Hin); [discriminate|].
    destruct (at_cachedAt b <? at_cachedAt t)%Z; eexists; split; eauto; simpl; auto.
  - exists t. simpl. auto.
Qed.

Lemma latest_Some_In candidates t : latest candidates = Some t -> In t candidates.
Proof.
  destruct candidates as [|t0 rest]; [discriminate|].
  destruct (latest_In (t0 :: rest)) as (t' & H & Hin); [discriminate|].
  rewrite H. by intros [= <-].
Qed.

(** What [getAccessToken] returns is in the cache and matches the request;
    in particular it is not expired under the skew rule. *)
Lemma getAccessToken_Some skew now c a cid scopes realm t :
  getAccessToken skew now c a cid scopes realm = Some t ->
  (exists k, accessTokens c !! k = Some t) /\
  matches skew now a cid scopes realm t = true.
Proof.
  unfold getAccessToken. intros H. apply latest_Some_In in H.
  apply filter_In in H as [Hin Hm]. split; [|assumption].
  apply list_elem_of_In, list_elem_of_fmap in Hin as ([k t'] & -> & Hin).
  apply elem_of_map_to_list in Hin. by exists k.
Qed.

Lemma getAccessToken_hit skew now c a cid scopes realm k t :
  accessTokens c !! k = Some t ->
  matches skew now a cid scopes realm t = true ->
  exists t', getAccessToken skew now c a cid scopes realm = Some t'.
Proof.
  intros Hk Hm. unfold getAccessToken.
  destruct (latest_In (List.filter (matches skew now a cid scopes realm)
                         (snd <$> map_to_list (accessTokens c)))) as (t' & H & _).
  - intros Hnil.
    assert (Hin : In t (List.filter (matches skew now a cid scopes realm)
                          (snd <$> map_to_list (accessTokens c)))).
    { apply filter_In. split; [|assumption].
      apply list_elem_of_In, list_elem_of_fmap. exists (k, t). split; [reflexivity|].
      by apply elem_of_map_to_list. }
    rewrite Hnil in Hin. destruct Hin.
  - by exists t'.
Qed.

Lemma validateIdToken_nonce_differs now t e n :
  expected_nonce e = Some n ->
  nonce (claims t) <> Some n ->
  exists err, validateIdToken verifySignature cfg now t e = Thrown err.
Proof.
  intros He Hn. unfold validateIdToken.
  destruct (negb (verifySignature (raw t))); [by eexists|].
  destruct (exp (claims t) + skew cfg <? now)%Z; [by eexists|].
  destruct (negb (String.eqb (iss (claims t)) (expected_issuer e))); [by eexists|].
  destruct (negb (existsb _ (aud (claims t)))); [by eexists|].
  rewrite He. destruct (nonce (claims t)) as [n'|]; [|by eexists].
  destruct (String.eqb n' n) eqn:E; [|by eexists].
  apply String.eqb_eq in E. congruence.
Qed.

Lemma validateIdToken_only_nonce_differs now t e n :
  verifySignature (raw t) = true ->
  (now <= exp (claims t) + skew cfg)%Z ->
  iss (claims t) = expected_issuer e ->
  In (expected_audience e) (aud (claims t)) ->
  expected_nonce e = Some n ->
  nonce (claims t) <> Some n ->
  validateIdToken verifySignature cfg now t e = Thrown NonceMismatchError.
Proof.
  intros Hsig Hexp Hiss Haud He Hn. unfold validateIdToken.
  rewrite Hsig. simpl.
  destruct (Z.ltb_spec (exp (claims t) + skew cfg) now) as [?|_]; [lia|].
  rewrite Hiss, String.eqb_refl. simpl.
  assert (Ha : existsb (String.eqb (expected_audience e)) (aud (claims t)) = true).
  { apply existsb_exists. eexists. split; [eassumption|]. apply String.eqb_refl. }
  rewrite Ha, He. simpl.
  destruct (nonce (claims t)) as [n'|]; [|reflexivity].
  destruct (String.eqb n' n) eqn:E; [|reflexivity].
  apply String.eqb_eq in E. congruence.
Qed.

(** C4: when the validation of the ID token fails during the code exchange,
    the exchange fails with the validator's error and the credential cache is
    the one it started from; a token whose nonce differs from the one of the
    pending request never validates, and when that is its only defect the
    error is [NonceMismatchError]; the cache changes only after a token
    response that validated; and the sample, handed the failure by
    [acquireTokenByCode], answers 500 and leaves its stored access token as
    it was. *)
Theorem failed_id_token_validation_writes_no_credentials
    (now : Z) (cache : CredentialCache) (r : TokenResponse) (pending : PendingRecord) :
  (forall e,
     validateIdToken verifySignature cfg now (id_token r) (expected_of cfg pending) = Thrown e ->
     exchangeCodeForTokens verifySignature cfg now cache (ExchangeOk r) pending =
       (cache, Thrown e)) /\
  (nonce (claims (id_token r)) <> Some (pr_nonce pending) ->
     exists e,
       exchangeCodeForTokens verifySignature cfg now cache (ExchangeOk r) pending =
         (cache, Thrown e)) /\
  (verifySignature (raw (id_token r)) = true ->
   (now <= exp (claims (id_token r)) + skew cfg)%Z ->
   iss (claims (id_token r)) = authority_issuer (pr_authority pending) ->
   In (clientId cfg) (aud (claims (id_token r))) ->
   nonce (claims (id_token r)) <> Some (pr_nonce pending) ->
     exchangeCodeForTokens verifySignature cfg now cache (ExchangeOk r) pending =
       (cache, Thrown NonceMismatchError)) /\
  (forall reply,
     fst (exchangeCodeForTokens verifySignature cfg now cache reply pending) <> cache ->
     exists r' c,
       reply = ExchangeOk r' /\
       validateIdToken verifySignature cfg now (id_token r') (expected_of cfg pending) =
         Returned c) /\
  (forall (view : TokenResult -> B2CApp.AuthenticationResult) q env st e,
     B2CApp.q_state q = Some B2CApp.APP_STATES_call_api ->
     snd (exchangeCodeForTokens verifySignature cfg now cache (ExchangeOk r) pending) =
       Thrown e ->
     B2CApp.env_token env =
       outcome_map view
         (snd (exchangeCodeForTokens verifySignature cfg now cache (ExchangeOk r) pending)) ->
     B2CApp.accessToken (fst (B2CApp.get_redirect q env st)) = B2CApp.accessToken st /\
     snd (B2CApp.get_redirect q env st) =
       [B2CApp.AcquireTokenByCode (B2CApp.tokenRequest (B2CApp.prepare_call_api q st));
        B2CApp.ConsoleLog e;
        B2CApp.Respond (B2CApp.StatusSend 500 (B2CApp.BodyError e))]).
Proof.
  assert (Hfail : forall e,
     validateIdToken verifySignature cfg now (id_token r) (expected_of cfg pending) = Thrown e ->
     exchangeCodeForTokens verifySignature cfg now cache (ExchangeOk r) pending =
       (cache, Thrown e)).
  { intros e He. unfold exchangeCodeForTokens. rewrite He. reflexivity. }
  refine (conj Hfail (conj _ (conj _ (conj _ _)))).
  - intros Hn.
    destruct (validateIdToken_nonce_differs now (id_token r) (expected_of cfg pending)
                (pr_nonce pending) eq_refl Hn) as [e He].
    exists e. by apply Hfail.
  - intros Hsig Hexp Hiss Haud Hn. apply Hfail.
    by apply (validateIdToken_only_nonce_differs now (id_token r) (expected_of cfg pending)
                (pr_nonce pending)).
  - intros reply. unfold exchangeCodeForTokens.
    destruct reply as [r'| |]; simpl; [|congruence..].
    destruct (validateIdToken verifySignature cfg now (id_token r') (expected_of cfg pending))
      as [c|e] eqn:E; simpl; [|congruence].
    intros _. by exists r', c.
  - intros view q env st e Hq He Henv. rewrite He in Henv. simpl in Henv.
    destruct (get_redirect_cases q env st)
      as [[Hq' _]|[[_ ->]|[(Hq' & _)|(_ & Hq' & _)]]]; try congruence.
    + rewrite Hq in Hq'. discriminate.
    + rewrite Henv. by split.
    + rewrite Hq in Hq'. discriminate.
Qed.

(** C6: on a miss of the access-token lookup with a refresh token in cache,
    a provider error that rejects the refresh token removes it and fails with
    [InteractionRequiredError], so that the next [getRefreshToken] for the
    account is a miss (and the next silent call fails with
    [NoCredentialsError] without a network call); a transient failure fails
    with [TransientServerError] and leaves the cache, the refresh token
    included, as it was.  Either way one redemption call was made. *)
Theorem rejected_refresh_token_is_removed_transient_failure_keeps_it
    (now : Z) (cache : CredentialCache) (redeem : RefreshTokenCredential -> RedeemReply)
    (a : Account) (scopes : list string) (au : Authority) (rt : RefreshTokenCredential) :
  getAccessToken (skew cfg) now cache a (clientId cfg) scopes (authority_realm au) = None ->
  getRefreshToken cache a (clientId cfg) = Some rt ->
  (forall error, redeem rt = RefreshTokenRejected error ->
     let cache' := fst (fst (acquireTokenSilent verifySignature cfg now cache redeem a scopes au)) in
     acquireTokenSilent verifySignature cfg now cache redeem a scopes au =
       (cache', Thrown InteractionRequiredError, [RedeemRefreshToken rt]) /\
     getRefreshToken cache' a (clientId cfg) = None /\
     accounts cache' = accounts cache /\ idTokens cache' = idTokens cache /\
     accessTokens cache' = accessTokens cache /\
     (forall k, k <> (homeAccountId a, environment a, clientId cfg) ->
        refreshTokens cache' !! k = refreshTokens cache !! k) /\
     acquireTokenSilent verifySignature cfg now cache' redeem a scopes au =
       (cache', Thrown NoCredentialsError, [])) /\
  (redeem rt = RedeemTransient ->
     acquireTokenSilent verifySignature cfg now cache redeem a scopes au =
       (cache, Thrown TransientServerError, [RedeemRefreshToken rt]) /\
     getRefreshToken cache a (clientId cfg) = Some rt).
Proof.
  intros Hmiss Hrt. split.
  - intros error Hrej. unfold acquireTokenSilent.
    rewrite Hmiss, Hrt, Hrej. simpl.
    assert (Hgone : getRefreshToken (removeRefreshToken a (clientId cfg) cache) a (clientId cfg)
                    = None).
    { unfold getRefreshToken, removeRefreshToken. simpl. apply lookup_delete_eq. }
    repeat split; try assumption.
    + intros k Hk. by apply lookup_delete_ne.
    + assert (Hmiss' : getAccessToken (skew cfg) now (removeRefreshToken a (clientId cfg) cache)
                         a (clientId cfg) scopes (authority_realm au) = None)
        by exact Hmiss.
      rewrite Hmiss', Hgone. reflexivity.
  - intros Htr. unfold acquireTokenSilent. rewrite Hmiss, Hrt, Htr. by split.
Qed.

(** The candidate that [latest] picks stands after candidates cached no
    later and before candidates cached strictly earlier; and a candidate that
    stands so is the one picked. *)
Lemma latest_split candidates t :
  latest candidates = Some t ->
  exists before after,
    candidates = before ++ t :: after /\
    Forall (fun x => (at_cachedAt x <= at_cachedAt t)%Z) before /\
    Forall (fun x => (at_cachedAt x < at_cachedAt t)%Z) after.
Proof.
  revert t. induction candidates as [|x rest IH]; intros t; [discriminate|].
  unfold latest in *. simpl.
  destruct (foldr _ None rest) as [b|] eqn:E.
  - destruct (IH b eq_refl) as (r1 & r2 & -> & H1 & H2).
    destruct (Z.ltb_spec (at_cachedAt b) (at_cachedAt x)) as [Hlt|Hge]; intros [= <-].
    + exists [], (r1 ++ b :: r2). split; [reflexivity|]. split; [constructor|].
      apply Forall_app. split.
      * eapply Forall_impl; [exact H1|]. simpl. intros; lia.
      * constructor; [assumption|]. eapply Forall_impl; [exact H2|]. simpl. intros; lia.
    + exists (x :: r1), r2. split; [reflexivity|]. split; [|assumption].
      constructor; assumption.
  - intros [= <-]. destruct rest as [|y rest'].
    + exists [], []. split; [reflexivity|]. split; constructor.
    + destruct (latest_In (y :: rest')) as (b & Hb & _); [discriminate|].
      unfold latest in Hb. rewrite E in Hb. discriminate.
Qed.

Lemma latest_of_split before t after :
  Forall (fun x => (at_cachedAt x <= at_cachedAt t)%Z) before ->
  Forall (fun x => (at_cachedAt x < at_cachedAt t)%Z) after ->
  latest (before ++ t :: after) = Some t.
Proof.
  intros Hb Ha.
  assert (Ht : latest (t :: after) = Some t).
  { unfold latest. simpl. destruct (foldr _ None after) as [b|] eqn:E; [|reflexivity].
    assert (Hin : In b after) by (apply latest_Some_In; exact E).
    rewrite Forall_forall in Ha. apply list_elem_of_In in Hin. specialize (Ha b Hin).
    destruct (Z.ltb_spec (at_cachedAt b) (at_cachedAt t)); [reflexivity|lia]. }
  induction Hb as [|x before Hx Hb IH]; [exact Ht|].
  unfold latest in *. simpl. rewrite IH.
  destruct (Z.ltb_spec (at_cachedAt t) (at_cachedAt x)); [lia|reflexivity].
Qed.

(** As the clock advances a token can only stop matching. *)
Lemma matches_earlier skew now1 now2 a cid scopes realm t :
  (now1 <= now2)%Z ->
  matches skew now2 a cid scopes realm t = true ->
  matches skew now1 a cid scopes realm t = true.
Proof.
  intros Hle. unfold matches, expired. rewrite !andb_true_iff, !negb_true_iff.
  intros (H & He). split; [assumption|].
  apply Z.leb_gt. apply Z.leb_gt in He. lia.
Qed.

Lemma matches_still_fresh skew now1 now2 a cid scopes realm t :
  matches skew now1 a cid scopes realm t = true ->
  expired skew now2 t = false ->
  matches skew now2 a cid scopes realm t = true.
Proof.
  unfold matches. rewrite !andb_true_iff, !negb_true_iff.
  intros (H & _) He. by split.
Qed.

Lemma filter_narrower {A} (p q : A -> bool) (l : list A) :
  (forall x, p x = true -> q x = true) ->
  List.filter p (List.filter q l) = List.filter p l.
Proof.
  intros Hpq. induction l as [|x l IH]; [reflexivity|]. simpl.
  destruct (q x) eqn:Eq; simpl.
  - rewrite IH. reflexivity.
  - destruct (p x) eqn:Ep; [|exact IH]. rewrite (Hpq x Ep) in Eq. discriminate.
Qed.

Lemma Forall_filter_keeps {A} (P : A -> Prop) (p : A -> bool) (l : list A) :
  Forall P l -> Forall P (List.filter p l).
Proof.
  intros H. induction H as [|x l Hx Hl IH]; simpl; [constructor|].
  destruct (p x); [constructor; assumption|assumption].
Qed.

Lemma single_access_token_lookup t k t' :
  accessTokens (setAccessToken t empty_cache) !! k = Some t' -> t' = t.
Proof.
  unfold setAccessToken, empty_cache. cbn [accessTokens].
  intros H. apply lookup_insert_Some in H as [[_ Heq]|[_ H]]; [by symmetry|].
  rewrite lookup_empty in H. discriminate.
Qed.

(** A later lookup returns the token of an earlier one, as long as that
    token is still fresh. *)
Lemma getAccessToken_later skew now1 now2 c a cid scopes realm t :
  (now1 <= now2)%Z ->
  getAccessToken skew now1 c a cid scopes realm = Some t ->
  expired skew now2 t = false ->
  getAccessToken skew now2 c a cid scopes realm = Some t.
Proof.
  intros Hle H1 Hfresh.
  destruct (getAccessToken_Some _ _ _ _ _ _ _ _ H1) as [_ Hm1].
  unfold getAccessToken in *.
  destruct (latest_split _ _ H1) as (before & after & Hsplit & Hb & Ha).
  rewrite <- (filter_narrower (matches skew now2 a cid scopes realm)
                (matches skew now1 a cid scopes realm)).
  - rewrite Hsplit, List.filter_app. simpl.
    rewrite (matches_still_fresh skew now1 now2 a cid scopes realm t Hm1 Hfresh).
    apply latest_of_split; by apply Forall_filter_keeps.
  - intros x. by apply matches_earlier.
Qed.

(** C7: with a matching access token in cache that is not expired, a silent
    acquisition returns a cached token that matches the request, leaves the
    cache as it was and makes no network call; and a second acquisition, at
    the same or a later clock reading at which the token returned first is
    still fresh, returns that same result, again with the cache as it was
    and no network call.  In the sample, two requests to [/api] in a row
    with a token in store hand the same token to the web API and make no
    call to the authority or the token endpoint. *)
Theorem silent_acquisition_twice_is_identical_and_offline :
  (forall (now1 now2 : Z) (cache : CredentialCache)
          (redeem : RefreshTokenCredential -> RedeemReply)
          (a : Account) (scopes : list string) (au : Authority) k t,
     accessTokens cache !! k = Some t ->
     matches (skew cfg) now1 a (clientId cfg) scopes (authority_realm au) t = true ->
     (now1 <= now2)%Z ->
     exists t',
       matches (skew cfg) now1 a (clientId cfg) scopes (authority_realm au) t' = true /\
       (exists k', accessTokens cache !! k' = Some t') /\
       acquireTokenSilent verifySignature cfg now1 cache redeem a scopes au =
         (cache, Returned (result_of t'), []) /\
       (expired (skew cfg) now2 t' = false ->
        acquireTokenSilent verifySignature cfg now2
          (fst (fst (acquireTokenSilent verifySignature cfg now1 cache redeem a scopes au)))
          redeem a scopes au =
          (cache, Returned (result_of t'), []))) /\
  (forall AuthError (env1 env2 : B2CApp.Env AuthError) st,
     B2CApp.truthy (B2CApp.accessToken st) = true ->
     fst (B2CApp.get_api env1 st) = st /\
     fst (B2CApp.get_api env2 (fst (B2CApp.get_api env1 st))) = st /\
     B2CApp.api_tokens (snd (B2CApp.get_api env2 (fst (B2CApp.get_api env1 st)))) =
       B2CApp.api_tokens (snd (B2CApp.get_api env1 st)) /\
     (exists token, B2CApp.api_tokens (snd (B2CApp.get_api env1 st)) = [token] /\
                    B2CApp.accessToken st = Some token) /\
     List.filter B2CApp.is_acquisition (snd (B2CApp.get_api env1 st)) = [] /\
     List.filter B2CApp.is_acquisition
       (snd (B2CApp.get_api env2 (fst (B2CApp.get_api env1 st)))) = []).
Proof.
  split.
  - intros now1 now2 cache redeem a scopes au k t Hk Hm Hle.
    destruct (getAccessToken_hit _ _ _ _ _ _ _ _ _ Hk Hm) as [t' Ht'].
    destruct (getAccessToken_Some _ _ _ _ _ _ _ _ Ht') as [Hin Hm'].
    exists t'. unfold acquireTokenSilent. rewrite Ht'. simpl.
    refine (conj Hm' (conj Hin (conj eq_refl _))).
    intros Hfresh.
    rewrite (getAccessToken_later _ _ _ _ _ _ _ _ _ Hle Ht' Hfresh). reflexivity.
  - intros AuthError env1 env2 st. apply get_api_twice.
Qed.

End Engine_facts.

(** Concrete runs of the engine: the signature check accepts, the client is
    ["C1"], the skew is the default. *)

Lemma nonce_n1_expected_n2_claimed_writes_nothing :
  let cfg := {| Engine.clientId := "C1"; Engine.skew := Engine.DEFAULT_SKEW |} in
  let au := {| Engine.authority_environment := "login.example";
               Engine.authority_issuer := "https://login.example/T1/v2.0";
               Engine.authority_realm := "T1" |} in
  let pending := {| Engine.pr_state := "s1";
                    Engine.pr_pkceCodes := {| B2CApp.challengeMethod := "S256";
                                              B2CApp.verifier := "v"; B2CApp.challenge := "c" |};
                    Engine.pr_nonce := "n1"; Engine.pr_scopes := ["read"];
                    Engine.pr_authority := au |} in
  let r := {| Engine.access_token := "at";
              Engine.id_token :=
                {| Engine.raw := "h.p.s";
                   Engine.claims :=
                     {| Engine.iss := "https://login.example/T1/v2.0";
                        Engine.aud := ["C1"]; Engine.exp := 3600;
                        Engine.nonce := Some "n2"; Engine.oid := "u1";
                        Engine.tid := "T1"; Engine.preferred_username := "user" |} |};
              Engine.refresh_token := Some "rt"; Engine.expires_in := 3600;
              Engine.scope := ["read"] |} in
  Engine.exchangeCodeForTokens (fun _ => true) cfg 0 Engine.empty_cache
    (Engine.ExchangeOk r) pending =
    (Engine.empty_cache, Thrown Engine.NonceMismatchError).
Proof.
  intros cfg au pending r.
  destruct (failed_id_token_validation_writes_no_credentials
              (fun _ => true) cfg 0 Engine.empty_cache r pending) as (_ & _ & H & _).
  apply H.
  - reflexivity.
  - simpl. unfold Engine.DEFAULT_SKEW. lia.
  - reflexivity.
  - simpl. left. reflexivity.
  - simpl. discriminate.
Defined.

Lemma invalid_grant_removes_refresh_token_example :
  let cfg := {| Engine.clientId := "C1"; Engine.skew := Engine.DEFAULT_SKEW |} in
  let au := {| Engine.authority_environment := "login.example";
               Engine.authority_issuer := "https://login.example/T1/v2.0";
               Engine.authority_realm := "T1" |} in
  let a := {| Engine.homeAccountId := "u1.T1"; Engine.environment := "login.example";
              Engine.username := "user"; Engine.tenantId := "T1";
              Engine.localAccountId := "u1" |} in
  let rt := {| Engine.rt_environment := "login.example"; Engine.rt_homeAccountId := "u1.T1";
               Engine.rt_clientId := "C1"; Engine.rt_secret := "rt-secret";
               Engine.rt_familyId := None |} in
  let cache := Engine.setRefreshToken rt Engine.empty_cache in
  let redeem := fun _ : Engine.RefreshTokenCredential =>
                  Engine.RefreshTokenRejected "invalid_grant" in
  let cache' := fst (fst (Engine.acquireTokenSilent (fun _ => true) cfg 0 cache redeem
                            a ["read"] au)) in
  snd (fst (Engine.acquireTokenSilent (fun _ => true) cfg 0 cache redeem a ["read"] au)) =
    Thrown Engine.InteractionRequiredError /\
  Engine.getRefreshToken cache' a "C1" = None.
Proof.
  intros cfg au a rt cache redeem cache'.
  destruct (rejected_refresh_token_is_removed_transient_failure_keeps_it
              (fun _ => true) cfg 0 cache redeem a ["read"] au rt) as [H _].
  - reflexivity.
  - apply lookup_insert_eq.
  - destruct (H "invalid_grant" eq_refl) as (Hrun & Hgone & _).
    split; [|exact Hgone]. fold cache'. rewrite Hrun. reflexivity.
Defined.

Lemma cached_read_token_served_twice_example :
  let cfg := {| Engine.clientId := "C1"; Engine.skew := Engine.DEFAULT_SKEW |} in
  let au := {| Engine.authority_environment := "login.example";
               Engine.authority_issuer := "https://login.example/T1/v2.0";
               Engine.authority_realm := "T1" |} in
  let a := {| Engine.homeAccountId := "u1.T1"; Engine.environment := "login.example";
              Engine.username := "user"; Engine.tenantId := "T1";
              Engine.localAccountId := "u1" |} in
  let t := {| Engine.at_environment := "login.example"; Engine.at_homeAccountId := "u1.T1";
              Engine.at_clientId := "C1"; Engine.at_realm := "T1";
              Engine.at_secret := "at-secret"; Engine.at_target := ["read"];
              Engine.at_cachedAt := 0; Engine.at_expiresOn := 3600;
              Engine.at_extendedExpiresOn := 3600; Engine.at_tokenType := "Bearer";
              Engine.at_refreshOn := None |} in
  let cache := Engine.setAccessToken t Engine.empty_cache in
  let redeem := fun _ : Engine.RefreshTokenCredential => Engine.RedeemTransient in
  Engine.acquireTokenSilent (fun _ => true) cfg 0 cache redeem a ["read"] au =
    (cache, Returned (Engine.result_of t), []) /\
  Engine.acquireTokenSilent (fun _ => true) cfg 100
    (fst (fst (Engine.acquireTokenSilent (fun _ => true) cfg 0 cache redeem a ["read"] au)))
    redeem a ["read"] au =
    (cache, Returned (Engine.result_of t), []).
Proof.
  intros cfg au a t cache redeem.
  destruct (silent_acquisition_twice_is_identical_and_offline (fun _ => true) cfg) as [H _].
  destruct (H 0%Z 100%Z cache redeem a ["read"] au (Engine.accessToken_key t) t)
    as (t' & _ & [k' Hk'] & H1 & H2).
  - apply lookup_insert_eq.
  - reflexivity.
  - lia.
  - assert (Ht' : t' = t).
    { exact (single_access_token_lookup t k' t' Hk'). }
    rewrite Ht' in H1, H2. split; [exact H1|]. apply H2. reflexivity.
Defined.

(** ** PKCE code generation *)

Example base64url_f : Pkce.base64UrlEncode [x66] = "Zg".
Proof. reflexivity. Qed.

Example base64url_fo : Pkce.base64UrlEncode [x66; x6f] = "Zm8".
Proof. reflexivity. Qed.

Example base64url_foobar :
  Pkce.base64UrlEncode [x66; x6f; x6f; x62; x61; x72] = "Zm9vYmFy".
Proof. reflexivity. Qed.

Example base64url_url_safe : Pkce.base64UrlEncode [xfb; xff] = "-_8".
Proof. reflexivity. Qed.

Section Pkce_facts.

Import Pkce.

Variable sha256 : list byte -> list byte.






End Pkce_facts.


(** ** Coalescing of redemptions *)

Section Coalesce_facts.

Import Coalesce.

Context {Result : Type}.

Implicit Types (s : State Result) (evs : list (Event Result)) (k : Key).

Lemma calls_for_same s k (inflight' : gmap Key (list nat)) delivered' :
  calls_for Result k {| inflight := inflight'; redemptions := redemptions Result s;
                        delivered := delivered' |} = calls_for Result k s.
Proof. reflexivity. Qed.

Lemma calls_for_snoc s k k' (inflight' : gmap Key (list nat)) delivered' :
  calls_for Result k {| inflight := inflight'; redemptions := redemptions Result s ++ [k'];
                        delivered := delivered' |} =
  (calls_for Result k s + if decide (k' = k) then 1 else 0)%nat.
Proof.
  unfold calls_for. simpl. rewrite List.filter_app, length_app. simpl.
  destruct (decide (k' = k)) as [->|Hne].
  - rewrite bool_decide_eq_true_2 by reflexivity. reflexivity.
  - rewrite bool_decide_eq_false_2 by assumption. reflexivity.
Qed.

(** While no reply for [k] arrives, the callers that miss on [k] queue up
    behind the one redemption that the first of them started. *)
Lemma run_without_reply k evs : forall s,
  replied Result k evs = false ->
  inflight Result (run Result s evs) !! k =
    match inflight Result s !! k with
    | Some waiting => Some (waiting ++ callers_of Result k evs)
    | None => match callers_of Result k evs with
              | [] => None
              | cs => Some cs
              end
    end /\
  calls_for Result k (run Result s evs) =
    (calls_for Result k s +
     match inflight Result s !! k, callers_of Result k evs with
     | None, _ :: _ => 1
     | _, _ => 0
     end)%nat.
Proof.
  induction evs as [|e rest IH]; intros s Hrep.
  - simpl. destruct (inflight Result s !! k) as [w|]; [rewrite app_nil_r|]; split; auto; lia.
  - unfold run in *. simpl foldl. destruct e as [c k'|k' r].
    + simpl in Hrep. specialize (IH (step Result s (Miss Result c k')) Hrep).
      destruct IH as [IH1 IH2]. rewrite IH1, IH2. clear IH1 IH2.
      cbn [callers_of step].
      destruct (decide (k' = k)) as [->|Hne].
      * destruct (inflight Result s !! k) as [w|] eqn:E; cbn [inflight].
        -- rewrite lookup_insert_eq, calls_for_same, <- app_assoc. simpl.
           split; [reflexivity|lia].
        -- rewrite lookup_insert_eq, calls_for_snoc.
           rewrite decide_True by reflexivity. simpl.
           split; [reflexivity|lia].
      * destruct (inflight Result s !! k') as [w'|] eqn:E'; cbn [inflight].
        -- rewrite lookup_insert_ne by assumption. rewrite calls_for_same. auto.
        -- rewrite lookup_insert_ne by assumption. rewrite calls_for_snoc.
           rewrite decide_False by assumption. rewrite Nat.add_0_r. auto.
    + simpl in Hrep. destruct (decide (k' = k)) as [->|Hne]; [discriminate|].
      specialize (IH (step Result s (Reply Result k' r)) Hrep).
      destruct IH as [IH1 IH2]. rewrite IH1, IH2. clear IH1 IH2.
      cbn [callers_of step].
      destruct (inflight Result s !! k') as [w'|] eqn:E'; cbn [inflight].
      * rewrite lookup_delete_ne by assumption. rewrite calls_for_same. auto.
      * auto.
Qed.

Lemma run_app s evs evs' :
  run Result s (evs ++ evs') = run Result (run Result s evs) evs'.
Proof. unfold run. apply foldl_app. Qed.

(** C9: for every number [N] of callers that miss on the same key before the
    reply arrives, in any interleaving with misses and replies for other
    keys, exactly one redemption call is made for that key, and its reply is
    handed to all [N] callers, in the order they arrived. *)
Theorem concurrent_misses_share_one_redemption
    (N : nat) k (r : Result) evs :
  replied Result k evs = false ->
  length (callers_of Result k evs) = N ->
  (0 < N)%nat ->
  let s := run Result (idle Result) (evs ++ [Reply Result k r]) in
  calls_for Result k s = 1%nat /\
  delivered Result s =
    delivered Result (run Result (idle Result) evs) ++
    ((fun c => (c, r)) <$> callers_of Result k evs) /\
  length ((fun c : nat => (c, r)) <$> callers_of Result k evs) = N /\
  inflight Result s !! k = None.
Proof.
  intros Hrep HN Hpos s. subst s. rewrite run_app.
  destruct (run_without_reply k evs (idle Result) Hrep) as [Hin Hcalls].
  change (inflight Result (idle Result) !! k) with (@None (list nat)) in Hin, Hcalls.
  destruct (callers_of Result k evs) as [|c cs] eqn:Ecs; [simpl in HN; lia|].
  set (s' := run Result (idle Result) evs) in *.
  change (run Result s' [Reply Result k r]) with (step Result s' (Reply Result k r)).
  unfold step. rewrite Hin, calls_for_same, Hcalls.
  refine (conj eq_refl (conj eq_refl (conj _ _))).
  - rewrite length_fmap. exact HN.
  - apply lookup_delete_eq.
Qed.

End Coalesce_facts.

Lemma three_misses_one_redemption_example :
  let k : Coalesce.Key := (("u1.T1", "login.example"), "C1", ["read"; "write"]) in
  let k' : Coalesce.Key := (("u2.T1", "login.example"), "C1", ["read"]) in
  let evs := [Coalesce.Miss string 1 k; Coalesce.Miss string 7 k';
              Coalesce.Miss string 2 k; Coalesce.Reply string k' "tokens-u2";
              Coalesce.Miss string 3 k] in
  let s := Coalesce.run string (Coalesce.idle string)
             (evs ++ [Coalesce.Reply string k "tokens-u1"]) in
  Coalesce.calls_for string k s = 1%nat /\
  Coalesce.delivered string s =
    [(7, "tokens-u2"); (1, "tokens-u1"); (2, "tokens-u1"); (3, "tokens-u1")]%nat.
Proof.
  intros k k' evs s.
  destruct (concurrent_misses_share_one_redemption 3 k "tokens-u1" evs)
    as (H1 & H2 & _).
  - reflexivity.
  - reflexivity.
  - lia.
  - split; [exact H1|]. subst s. rewrite H2. vm_compute. reflexivity.
Defined.

(** * Further properties of the code *)

(** ** Splitting a compact serialization *)

Lemma split_app_sep sep (s t : string) :
  split sep (s ++ String sep t)%string = split sep s ++ split sep t.
Proof.
  induction s as [|c s IH]; simpl.
  - rewrite Ascii.eqb_refl. reflexivity.
  - destruct (Ascii.eqb c sep).
    + rewrite IH. reflexivity.
    + rewrite IH. pose proof (split_nonempty sep s) as Hne.
      destruct (split sep s) as [|seg segs]; [congruence|]. reflexivity.
Qed.

Lemma split_free sep (s : string) :
  ~ In sep (list_ascii_of_string s) -> split sep s = [s].
Proof.
  induction s as [|c s IH]; simpl; [reflexivity|]. intros Hfree.
  destruct (Ascii.eqb_spec c sep) as [->|Hne]; [tauto|].
  rewrite IH by tauto. reflexivity.
Qed.

Lemma split_concat sep (seg : string) (segs : list string) :
  Forall (fun x => ~ In sep (list_ascii_of_string x)) (seg :: segs) ->
  split sep (String.concat (String sep EmptyString) (seg :: segs)) = seg :: segs.
Proof.
  revert seg. induction segs as [|seg' segs IH]; intros seg Hfree.
  - simpl. apply split_free. by inversion Hfree.
  - inversion Hfree as [|? ? Hseg Hrest]; subst.
    change (String.concat (String sep EmptyString) (seg :: seg' :: segs))
      with (seg ++ String sep (String.concat (String sep EmptyString) (seg' :: segs)))%string.
    rewrite split_app_sep, (split_free sep seg Hseg), (IH seg' Hrest). reflexivity.
Qed.

Lemma split_length sep (s : string) :
  length (split sep s) = S (count_occ Ascii.ascii_dec (list_ascii_of_string s) sep).
Proof.
  induction s as [|c s IH]; simpl; [reflexivity|].
  destruct (Ascii.eqb_spec c sep) as [->|Hne].
  - destruct (Ascii.ascii_dec sep sep); [|congruence]. simpl. rewrite IH. reflexivity.
  - destruct (Ascii.ascii_dec c sep); [congruence|].
    pose proof (split_nonempty sep s) as Hnil.
    destruct (split sep s) as [|seg segs]; [congruence|]. exact IH.
Qed.

(** ** More on the JWE constructor *)

Section JWE_more.

Context {JsError Json : Type}.
Variable decode : option string -> Outcome JsError string.
Variable JSON_parse : string -> Outcome JsError Json.

Ltac unfold_constructor :=
  unfold JWE.constructor, JWE.segment_reads, JWE.parseJweProtectedHeader,
    JWE.bind, JWE.base64Decode, JWE.lift, JWE.ret, JWE.decoder_calls, JWE.outcome.

Lemma constructor_calls_prefix rawJwe :
  JWE.decoder_calls (JWE.constructor decode JSON_parse rawJwe)
    `prefix_of` JWE.segment_reads rawJwe.
Proof.
  unfold_constructor. set (attrs := split "." rawJwe).
  destruct (decode (attrs !! 0%nat)); simpl; [|by eexists].
  destruct (JSON_parse a); simpl; [|by eexists].
  destruct (decode (attrs !! 1%nat)); simpl; [|by eexists].
  destruct (decode (attrs !! 2%nat)); simpl; [|by eexists].
  destruct (decode (attrs !! 3%nat)); simpl; [|by eexists].
  destruct (decode (attrs !! 4%nat)); simpl; by eexists.
Qed.

Lemma constructor_reads_only rawJwe rawJwe' :
  JWE.segment_reads rawJwe' = JWE.segment_reads rawJwe ->
  JWE.constructor decode JSON_parse rawJwe' = JWE.constructor decode JSON_parse rawJwe.
Proof.
  unfold JWE.segment_reads. simpl. intros Hreads.
  unfold JWE.constructor. injection Hreads as -> -> -> -> ->. reflexivity.
Qed.

Lemma constructor_returned_key rawJwe jwe :
  JWE.outcome (JWE.constructor decode JSON_parse rawJwe) = Returned jwe ->
  decode (split "." rawJwe !! 1%nat) = Returned (JWE.encryptedKey jwe).
Proof.
  unfold_constructor. set (attrs := split "." rawJwe).
  destruct (decode (attrs !! 0%nat)); simpl; [|discriminate].
  destruct (JSON_parse a); simpl; [|discriminate].
  destruct (decode (attrs !! 1%nat)); simpl; [|discriminate].
  destruct (decode (attrs !! 2%nat)); simpl; [|discriminate].
  destruct (decode (attrs !! 3%nat)); simpl; [|discriminate].
  destruct (decode (attrs !! 4%nat)); simpl; [|discriminate].
  intros [= <-]. reflexivity.
Qed.

(** X1: a compact serialization of five or more segments that hold no dot
    (empty segments included) is read segment by segment: the decoder gets the
    first five, as strings and in order, and when they decode and the header
    parses, the object holds the decoding of the second to fifth segment in
    [encryptedKey], [initializationVector], [ciphertext] and
    [authenticationTag]. *)
Theorem jwe_five_segments_parsed_field_by_field
    (h k iv ct tag : string) (extra : list string) dh hd dk div dct dtag :
  Forall (fun x => ~ In "."%char (list_ascii_of_string x))
    (h :: k :: iv :: ct :: tag :: extra) ->
  decode (Some h) = Returned dh -> JSON_parse dh = Returned hd ->
  decode (Some k) = Returned dk -> decode (Some iv) = Returned div ->
  decode (Some ct) = Returned dct -> decode (Some tag) = Returned dtag ->
  let rawJwe := String.concat "." (h :: k :: iv :: ct :: tag :: extra) in
  JWE.segment_reads rawJwe = [Some h; Some k; Some iv; Some ct; Some tag] /\
  JWE.constructor decode JSON_parse rawJwe =
    ([Some h; Some k; Some iv; Some ct; Some tag],
     Returned {| JWE.header := hd; JWE.encryptedKey := dk;
                 JWE.initializationVector := div; JWE.ciphertext := dct;
                 JWE.authenticationTag := dtag |}).
Proof.
  intros Hfree Hh Hhd Hk Hiv Hct Htag rawJwe. subst rawJwe.
  unfold_constructor. rewrite (split_concat "." h _ Hfree). simpl.
  rewrite Hh. simpl. rewrite Hhd. simpl. rewrite Hk, Hiv, Hct, Htag. simpl.
  split; reflexivity.
Qed.

(** X2: whatever follows the fifth segment is ignored: with five segments or
    more in [rawJwe], appending a dot and any text gives the same decoder
    calls and the same outcome. *)
Theorem jwe_trailing_segments_ignored (rawJwe rest : string) :
  (5 <= length (split "." rawJwe))%nat ->
  JWE.constructor decode JSON_parse (rawJwe ++ String "." rest)%string =
  JWE.constructor decode JSON_parse rawJwe.
Proof.
  intros Hlen. apply constructor_reads_only.
  unfold JWE.segment_reads. rewrite split_app_sep. simpl.
  rewrite !lookup_app_l by lia. reflexivity.
Qed.

(** X3: the number of segments is the number of dots plus one, and the
    decoder is handed [undefined] only when the input has fewer than four
    dots: with four dots or more every decoder call is a segment of the
    input. *)
Theorem jwe_undefined_only_below_four_dots (rawJwe : string) :
  let dots := count_occ Ascii.ascii_dec (list_ascii_of_string rawJwe) "."%char in
  let run := JWE.constructor decode JSON_parse rawJwe in
  length (split "." rawJwe) = S dots /\
  ((4 <= dots)%nat ->
     forall c, In c (JWE.decoder_calls run) ->
               exists seg, c = Some seg /\ In seg (split "." rawJwe)) /\
  (In None (JWE.decoder_calls run) -> (dots < 4)%nat).
Proof.
  intros dots run.
  assert (Hlen : length (split "." rawJwe) = S dots) by apply split_length.
  assert (Hsome : (4 <= dots)%nat ->
     forall c, In c (JWE.decoder_calls run) ->
               exists seg, c = Some seg /\ In seg (split "." rawJwe)).
  { intros Hdots c Hc.
    destruct (constructor_calls_prefix rawJwe) as [more Hreads].
    assert (Hin : In c (JWE.segment_reads rawJwe)).
    { rewrite Hreads. apply in_or_app. by left. }
    unfold JWE.segment_reads in Hin. apply list_elem_of_In, list_elem_of_fmap in Hin.
    destruct Hin as (i & -> & Hi).
    assert (Hi' : (i < 5)%nat).
    { apply list_elem_of_In in Hi. simpl in Hi. lia. }
    destruct (lookup_lt_is_Some_2 (split "." rawJwe) i) as [seg Hseg]; [lia|].
    exists seg. split; [assumption|].
    apply list_elem_of_In. eapply list_elem_of_lookup_2; eauto. }
  refine (conj Hlen (conj Hsome _)).
  intros Hnone. destruct (le_lt_dec 4 dots) as [Hge|Hlt]; [|assumption].
  destruct (Hsome Hge None Hnone) as (seg & Heq & _). discriminate.
Qed.

End JWE_more.

Lemma jwe_five_segments_example :
  let decode := fun o : option string =>
    match o with Some s => Returned (s ++ "!")%string | None => Thrown "TypeError" end in
  JWE.constructor decode (fun s : string => @Returned string string s) "h..iv.ct.tag.more" =
    ([Some "h"; Some ""; Some "iv"; Some "ct"; Some "tag"],
     Returned {| JWE.header := "h!"; JWE.encryptedKey := "!";
                 JWE.initializationVector := "iv!"; JWE.ciphertext := "ct!";
                 JWE.authenticationTag := "tag!" |}).
Proof.
  intros decode.
  apply (jwe_five_segments_parsed_field_by_field decode
           (fun s : string => @Returned string string s)
           "h" "" "iv" "ct" "tag" ["more"] "h!" "h!" "!" "iv!" "ct!" "tag!");
    try reflexivity.
  repeat constructor; simpl; intros H; repeat destruct H as [H|H]; try discriminate H; exact H.
Defined.

Lemma jwe_trailing_segments_example :
  let decode := fun o : option string =>
    match o with Some s => Returned s | None => Thrown "TypeError" end in
  JWE.constructor decode (fun s : string => @Returned string string s)
    "h.k.iv.ct.tag.x.y" =
  JWE.constructor decode (fun s : string => @Returned string string s) "h.k.iv.ct.tag".
Proof.
  intros decode.
  apply (jwe_trailing_segments_ignored decode (fun s : string => @Returned string string s)
           "h.k.iv.ct.tag" "x.y").
  simpl. lia.
Defined.

Lemma jwe_four_dots_example :
  let decode := fun o : option string =>
    match o with Some s => Returned s | None => Thrown "TypeError" end in
  ~ In None (JWE.decoder_calls
               (JWE.constructor decode (fun s : string => @Returned string string s)
                  "a.b.c.d.e")).
Proof.
  intros decode Hnone.
  destruct (jwe_undefined_only_below_four_dots decode
              (fun s : string => @Returned string string s) "a.b.c.d.e") as (_ & _ & H).
  specialize (H Hnone). vm_compute in H. lia.
Defined.

(** ** Unwrapping the content-encryption key *)

Section JWEKey_facts.

Context {JsError Json ArrayBuffer CryptoKey : Type}.
Variable decode : option string -> Outcome JsError string.
Variable JSON_parse : string -> Outcome JsError Json.
Variable stringToArrayBuffer : string -> ArrayBuffer.
Variable subtle_decrypt : string -> CryptoKey -> ArrayBuffer -> Outcome JsError ArrayBuffer.
Variable subtle_importKey :
  string -> ArrayBuffer -> string -> bool -> list string -> Outcome JsError CryptoKey.

(** X4: for an object the constructor returned, [unwrapContentEncryptionKey]
    decrypts, under RSA-OAEP and with the key given, the buffer of the decoded
    second segment of the input; when that is rejected nothing is imported and
    the rejection is the result; otherwise exactly what was decrypted is
    imported, as a non-extractable AES-GCM key for decryption only, and the
    import settles the result. *)
Theorem unwrap_imports_only_what_decrypt_returned
    (rawJwe : string) (jwe : JWE.JsonWebEncryption Json) (unwrappingKey : CryptoKey) :
  JWE.outcome (JWE.constructor decode JSON_parse rawJwe) = Returned jwe ->
  exists dk,
    decode (split "." rawJwe !! 1%nat) = Returned dk /\
    match subtle_decrypt "RSA-OAEP" unwrappingKey (stringToArrayBuffer dk) with
    | Thrown e =>
        JWEKey.unwrapContentEncryptionKey stringToArrayBuffer subtle_decrypt
          subtle_importKey jwe unwrappingKey =
        ([JWEKey.Decrypt "RSA-OAEP" unwrappingKey (stringToArrayBuffer dk)], Thrown e)
    | Returned keyData =>
        JWEKey.unwrapContentEncryptionKey stringToArrayBuffer subtle_decrypt
          subtle_importKey jwe unwrappingKey =
        ([JWEKey.Decrypt "RSA-OAEP" unwrappingKey (stringToArrayBuffer dk);
          JWEKey.ImportKey "jwk" keyData "AES-GCM" false ["decrypt"]],
         subtle_importKey "jwk" keyData "AES-GCM" false ["decrypt"])
    end.
Proof.
  intros Hjwe. exists (JWE.encryptedKey jwe).
  split; [by apply (constructor_returned_key decode JSON_parse)|].
  unfold JWEKey.unwrapContentEncryptionKey.
  destruct (subtle_decrypt "RSA-OAEP" unwrappingKey
              (stringToArrayBuffer (JWE.encryptedKey jwe))); reflexivity.
Qed.

End JWEKey_facts.

Lemma unwrap_rejected_decrypt_example :
  let decode := fun o : option string =>
    match o with Some s => Returned s | None => Thrown "TypeError" end in
  let jwe := {| JWE.header := "h"; JWE.encryptedKey := "k";
                JWE.initializationVector := "iv"; JWE.ciphertext := "ct";
                JWE.authenticationTag := "tag" |} in
  JWEKey.unwrapContentEncryptionKey (fun s : string => s)
    (fun (_ : string) (_ : nat) (_ : string) => @Thrown string string "OperationError")
    (fun (_ : string) (_ : string) (_ : string) (_ : bool) (_ : list string) =>
       @Returned string nat 0%nat)
    jwe 7%nat =
  ([JWEKey.Decrypt "RSA-OAEP" 7%nat "k"], Thrown "OperationError").
Proof.
  intros decode jwe.
  destruct (unwrap_imports_only_what_decrypt_returned decode
              (fun s : string => @Returned string string s) (fun s : string => s)
              (fun (_ : string) (_ : nat) (_ : string) => @Thrown string string "OperationError")
              (fun (_ : string) (_ : string) (_ : string) (_ : bool) (_ : list string) =>
                 @Returned string nat 0%nat)
              "h.k.iv.ct.tag" jwe 7%nat) as (dk & Hdk & Hrun).
  - reflexivity.
  - injection Hdk as <-. exact Hrun.
Defined.

(** ** The persistence script *)

Section Script_facts.

Import PersistenceScript.

Context {PluginError : Type}.

(** X5: however the write and the read settle, the script never deletes the
    cache file and never logs that it did or did not; it always ends by
    logging an error, which after a successful write and read is the
    [ReferenceError] for the name that is declared only in a comment; the
    overall timer is ended exactly when both succeed, no timer is ended that
    was not started, and what is handed to [writeToStorage] returns the same
    text for every state of the disk. *)
Theorem script_never_deletes_and_ends_with_an_error
    (write : Outcome PluginError unit) (read : Outcome PluginError string) :
  let acts := script write read in
  deletes acts = false /\
  ~ In "File was deleted" (logged_texts acts) /\
  ~ In "File was not deleted" (logged_texts acts) /\
  (exists a, last acts = Some a /\ is_error_log a = true) /\
  (forall u data, write = Returned u -> read = Returned data ->
     last acts = Some (Log (LogReferenceError "filePersistenceWithDataProtection"))) /\
  (In "Write and Read" (ended acts) <->
     exists u data, write = Returned u /\ read = Returned data) /\
  (forall l, In l (ended acts) -> In l (started acts)) /\
  (forall callback diskState, In (WriteToStorage callback) acts ->
     callback diskState = "Tokens returned by MSAL").
Proof.
  intros acts. subst acts.
  destruct write as [u|err]; [destruct read as [data|error]|]; cbn.
  - refine (conj eq_refl (conj _ (conj _ (conj _ (conj _ (conj _ (conj _ _))))))).
    + intros [H|[H|[]]]; discriminate H.
    + intros [H|[H|[]]]; discriminate H.
    + eexists. split; reflexivity.
    + reflexivity.
    + split; [intros _; by exists u, data|]. intros _. right. right. by left.
    + intros l [<-|[<-|[<-|[]]]]; auto.
    + intros callback diskState [H|[H|[H|[H|[H|[H|[H|[H|[H|[H|[H|[]]]]]]]]]]]];
        try discriminate H. injection H as <-. reflexivity.
  - refine (conj eq_refl (conj _ (conj _ (conj _ (conj _ (conj _ (conj _ _))))))).
    + intros [H|[]]; discriminate H.
    + intros [H|[]]; discriminate H.
    + eexists. split; reflexivity.
    + intros u' data' _ Hd. discriminate Hd.
    + split; [intros [H|[]]; discriminate H|]. intros (u' & data' & _ & Hd). discriminate Hd.
    + intros l [<-|[]]; auto.
    + intros callback diskState [H|[H|[H|[H|[H|[H|[H|[H|[]]]]]]]]];
        try discriminate H. injection H as <-. reflexivity.
  - refine (conj eq_refl (conj _ (conj _ (conj _ (conj _ (conj _ (conj _ _))))))).
    + intros [].
    + intros [].
    + eexists. split; reflexivity.
    + intros u' data' Hu _. discriminate Hu.
    + split; [intros []|]. intros (u' & data' & Hu & _). discriminate Hu.
    + intros l [].
    + intros callback diskState [H|[H|[H|[H|[]]]]];
        try discriminate H. injection H as <-. reflexivity.
Qed.

End Script_facts.

(** ** Runs of the sample application *)

Section Run_facts.

Context {AuthError : Type}.
Import B2CApp B2CRun.

Implicit Types (st : AppState) (env : Env AuthError) (q : Query)
  (reqs mid : list (Request * Env AuthError)).

Lemma serve_app reqs reqs' st :
  fst (serve (reqs ++ reqs') st) = fst (serve reqs' (fst (serve reqs st))) /\
  snd (serve (reqs ++ reqs') st) =
    snd (serve reqs st) ++ snd (serve reqs' (fst (serve reqs st))).
Proof.
  revert st. induction reqs as [|[req env] rest IH]; intros st; [by split|].
  simpl. destruct (handle req env st) as [st1 effs1].
  destruct (IH st1) as [IH1 IH2].
  destruct (serve (rest ++ reqs') st1) as [st2 effs2].
  destruct (serve rest st1) as [st3 effs3]. simpl in *.
  split; [assumption|]. rewrite IH2, app_assoc. reflexivity.
Qed.

Lemma serve_cons req env reqs st :
  fst (serve ((req, env) :: reqs) st) = fst (serve reqs (fst (handle req env st))) /\
  snd (serve ((req, env) :: reqs) st) =
    snd (handle req env st) ++ snd (serve reqs (fst (handle req env st))).
Proof.
  simpl. destruct (handle req env st) as [st1 effs1]. simpl.
  destruct (serve reqs st1) as [st2 effs2]. by split.
Qed.

Lemma prefix_app (needle post : string) : String.prefix needle (needle ++ post)%string = true.
Proof.
  induction needle as [|c needle IH]; simpl; [by destruct post|].
  destruct (Ascii.ascii_dec c c); [assumption|congruence].
Qed.

Lemma includes_prefix (needle hay : string) :
  String.prefix needle hay = true -> includes needle hay = true.
Proof. destruct hay; simpl; intros ->; reflexivity. Qed.

(** [includes] finds the needle wherever it stands. *)
Lemma includes_app (needle pre post : string) :
  includes needle (pre ++ needle ++ post)%string = true.
Proof.
  induction pre as [|c pre IH].
  - cbn [String.append].
    apply (includes_prefix needle (needle ++ post)%string), (prefix_app needle post).
  - change (String.prefix needle (String c (pre ++ needle ++ post)%string) ||
            includes needle (pre ++ needle ++ post)%string = true).
    rewrite IH. apply orb_true_r.
Qed.

Lemma login_rejected_requests q (error : AuthError) st :
  token_requests (snd (login_rejected q error st)) = [] /\
  auth_requests (snd (login_rejected q error st)) = [] /\
  (length (responses (snd (login_rejected q error st))) <= 1)%nat /\
  (responses (snd (login_rejected q error st)) = [] <->
     truthy (q_error q) = true /\ q_error_description q = None).
Proof.
  unfold login_rejected. destruct (truthy (q_error q)).
  - destruct (q_error_description q) as [d|].
    + destruct (includes "AADB2C90118" d); simpl; repeat split; auto;
        try discriminate; intros [_ H]; discriminate.
    + simpl. repeat split; auto.
  - simpl. repeat split; auto; try discriminate. intros [H _]; discriminate.
Qed.

Lemma getAuthCode_effects authority scopes state env st :
  token_requests (snd (getAuthCode authority scopes state env st)) = [] /\
  (length (responses (snd (getAuthCode authority scopes state env st))) <= 1)%nat /\
  (responses (snd (getAuthCode authority scopes state env st)) = [] <->
     (exists e, env_pkce env = Thrown e) \/ (exists e, env_authCodeUrl env = Thrown e)).
Proof.
  unfold getAuthCode. destruct (env_pkce env) as [codes|e].
  - destruct (env_authCodeUrl env) as [url|e]; simpl; repeat split; auto.
    + discriminate.
    + intros [[e H]|[e H]]; discriminate.
    + intros _. right. by exists e.
  - simpl. repeat split; auto. intros _. left. by exists e.
Qed.

Lemma getAuthCode_ok authority scopes state env st :
  shared_objects_ok st ->
  (authority = AuthorityUrl resetPassword /\ scopes = SCOPES_oidc /\
   state = APP_STATES_password_reset) \/
  (authority = AuthorityUrl signUpSignIn /\ scopes = SCOPES_oidc /\
   state = APP_STATES_login) \/
  (authority = AuthorityUrl editProfile /\ scopes = SCOPES_oidc /\
   state = APP_STATES_login) \/
  (authority = AuthorityUrl signUpSignIn /\ scopes = SCOPES_resource1 /\
   state = APP_STATES_call_api) ->
  shared_objects_ok (fst (getAuthCode authority scopes state env st)) /\
  Forall auth_request_ok (auth_requests (snd (getAuthCode authority scopes state env st))) /\
  tokenRequest (fst (getAuthCode authority scopes state env st)) = tokenRequest st.
Proof.
  intros (Hr1 & Hr2 & Hm & Ha) Hcombo. unfold getAuthCode.
  destruct (env_pkce env) as [[v c]|e].
  - assert (Hreq : auth_request_ok
              (authCodeRequest (getAuthCode_onPkceCodes (v, c)
                                  (getAuthCode_prepare authority scopes state st)))).
    { unfold auth_request_ok. simpl. rewrite Hm.
      refine (conj Hr1 (conj eq_refl (conj _ _))); [by exists c|].
      destruct Hcombo as [(-> & -> & ->)|[(-> & -> & ->)|[(-> & -> & ->)|(-> & -> & ->)]]];
        tauto. }
    destruct (env_authCodeUrl env) as [url|e]; simpl;
      (refine (conj _ (conj _ eq_refl));
       [by repeat split|constructor; [exact Hreq|constructor]]).
  - simpl. refine (conj _ (conj _ eq_refl)); [by repeat split|constructor].
Qed.

Lemma get_redirect_requests q env st :
  auth_requests (snd (get_redirect q env st)) = [] /\
  (q_state q = Some APP_STATES_login ->
     token_requests (snd (get_redirect q env st)) = [tokenRequest (prepare_login q st)]) /\
  (q_state q = Some APP_STATES_call_api ->
     token_requests (snd (get_redirect q env st)) = [tokenRequest (prepare_call_api q st)]) /\
  (q_state q <> Some APP_STATES_login -> q_state q <> Some APP_STATES_call_api ->
     token_requests (snd (get_redirect q env st)) = []).
Proof.
  destruct (get_redirect_cases q env st)
    as [[Hq ->]|[[Hq ->]|[(Hq & -> & _)|(H1 & H2 & _ & ->)]]].
  - destruct (env_token env) as [r|e]; simpl.
    + repeat split; auto; try congruence. rewrite Hq. discriminate.
    + destruct (login_rejected_requests q e (prepare_login q st)) as (-> & -> & _).
      repeat split; auto; try congruence. rewrite Hq. discriminate.
  - destruct (env_token env) as [r|e]; simpl;
      repeat split; auto; try congruence; rewrite Hq; discriminate.
  - simpl. repeat split; auto; rewrite Hq; discriminate.
  - simpl. repeat split; auto; congruence.
Qed.

Lemma get_redirect_state q env st :
  shared_objects_ok st ->
  shared_objects_ok (fst (get_redirect q env st)) /\
  (strict_eq (q_state q) APP_STATES_call_api = false ->
   tr_authority (tokenRequest (fst (get_redirect q env st))) = tr_authority (tokenRequest st)).
Proof.
  intros (Hr1 & Hr2 & Hm & Ha).
  destruct (get_redirect_cases q env st)
    as [[Hq ->]|[[Hq ->]|[(Hq & _ & _ & Hp & Ht)|(_ & _ & _ & ->)]]].
  - destruct (env_token env) as [r|e]; simpl.
    + by repeat split.
    + unfold login_rejected. destruct (truthy (q_error q)); [|by repeat split].
      destruct (q_error_description q) as [d|]; [|by repeat split].
      destruct (includes "AADB2C90118" d); by repeat split.
  - split.
    + destruct (env_token env) as [r|e]; simpl; repeat split; auto.
    + rewrite Hq. discriminate.
  - split; [|by rewrite Ht].
    unfold get_redirect in *. rewrite Hq in *. simpl in *. by repeat split.
  - by repeat split.
Qed.

(** One step keeps the shared objects well-formed and sends only well-formed
    requests. *)
Lemma handle_ok req env st :
  shared_objects_ok st ->
  shared_objects_ok (fst (handle req env st)) /\
  Forall auth_request_ok (auth_requests (snd (handle req env st))) /\
  Forall token_request_ok (token_requests (snd (handle req env st))) /\
  (is_call_api_redirect req = false ->
   tr_authority (tokenRequest (fst (handle req env st))) = tr_authority (tokenRequest st) /\
   Forall (fun r => tr_authority r = tr_authority (tokenRequest st))
     (token_requests (snd (handle req env st)))).
Proof.
  intros Hok.
  assert (Hgen : forall authority scopes state,
    (authority = AuthorityUrl resetPassword /\ scopes = SCOPES_oidc /\
     state = APP_STATES_password_reset) \/
    (authority = AuthorityUrl signUpSignIn /\ scopes = SCOPES_oidc /\
     state = APP_STATES_login) \/
    (authority = AuthorityUrl editProfile /\ scopes = SCOPES_oidc /\
     state = APP_STATES_login) \/
    (authority = AuthorityUrl signUpSignIn /\ scopes = SCOPES_resource1 /\
     state = APP_STATES_call_api) ->
    shared_objects_ok (fst (getAuthCode authority scopes state env st)) /\
    Forall auth_request_ok (auth_requests (snd (getAuthCode authority scopes state env st))) /\
    Forall token_request_ok (token_requests (snd (getAuthCode authority scopes state env st))) /\
    (false = false ->
     tr_authority (tokenRequest (fst (getAuthCode authority scopes state env st))) =
       tr_authority (tokenRequest st) /\
     Forall (fun r => tr_authority r = tr_authority (tokenRequest st))
       (token_requests (snd (getAuthCode authority scopes state env st))))).
  { intros authority scopes state Hcombo.
    destruct (getAuthCode_ok authority scopes state env st Hok Hcombo) as (H1 & H2 & H3).
    destruct (getAuthCode_effects authority scopes state env st) as (-> & _).
    rewrite H3. refine (conj H1 (conj H2 (conj _ (fun _ => conj eq_refl _)))); constructor. }
  destruct req as [| | | |q]; simpl.
  - refine (conj Hok (conj _ (conj _ (fun _ => conj eq_refl _)))); constructor.
  - unfold get_login. destruct (strict_eq _ _); apply Hgen; tauto.
  - unfold get_profile. apply Hgen; tauto.
  - unfold get_api. destruct (accessToken st) as [token|]; [|apply Hgen; tauto].
    destruct (negb (truthy (Some token))); [apply Hgen; tauto|].
    simpl. refine (conj Hok (conj _ (conj _ (fun _ => conj eq_refl _)))); constructor.
  - destruct (get_redirect_state q env st Hok) as [Hst Hauth].
    destruct (get_redirect_requests q env st) as (-> & Hl & Hc & Hn).
    destruct Hok as (Hr1 & Hr2 & Hm & Ha).
    refine (conj Hst (conj (Forall_nil_2 _) (conj _ _))).
    + destruct (decide (q_state q = Some APP_STATES_login)) as [Hq|Hq].
      { rewrite (Hl Hq). constructor; [|constructor].
        exact (conj Hr2 (conj (ex_intro _ _ eq_refl) (or_introl (conj eq_refl Ha)))). }
      destruct (decide (q_state q = Some APP_STATES_call_api)) as [Hq'|Hq'].
      { rewrite (Hc Hq'). constructor; [|constructor].
        exact (conj Hr2 (conj (ex_intro _ _ eq_refl) (or_intror (conj eq_refl eq_refl)))). }
      rewrite (Hn Hq Hq'). constructor.
    + intros Hnot. split; [by apply Hauth|].
      destruct (decide (q_state q = Some APP_STATES_login)) as [Hq|Hq].
      { rewrite (Hl Hq). constructor; [reflexivity|constructor]. }
      destruct (decide (q_state q = Some APP_STATES_call_api)) as [Hq'|Hq'].
      { apply strict_eq_true in Hq'. congruence. }
      rewrite (Hn Hq Hq'). constructor.
Qed.

Lemma serve_ok reqs : forall st,
  shared_objects_ok st ->
  shared_objects_ok (fst (serve reqs st)) /\
  Forall auth_request_ok (auth_requests (snd (serve reqs st))) /\
  Forall token_request_ok (token_requests (snd (serve reqs st))).
Proof.
  induction reqs as [|[req env] rest IH]; intros st Hok.
  - simpl. refine (conj Hok (conj _ _)); constructor.
  - destruct (serve_cons req env rest st) as [-> ->].
    destruct (handle_ok req env st Hok) as (H1 & H2 & H3 & _).
    destruct (IH _ H1) as (I1 & I2 & I3).
    unfold auth_requests, token_requests in *. rewrite !flat_map_app.
    refine (conj I1 (conj _ _)); apply Forall_app; by split.
Qed.

Lemma getAuthCode_tokenRequest authority scopes state env st :
  tokenRequest (fst (getAuthCode authority scopes state env st)) = tokenRequest st.
Proof.
  unfold getAuthCode. destruct (env_pkce env); [|reflexivity].
  destruct (env_authCodeUrl env); reflexivity.
Qed.

Lemma handle_authority_kept req env st :
  is_call_api_redirect req = false ->
  tr_authority (tokenRequest (fst (handle req env st))) = tr_authority (tokenRequest st) /\
  Forall (fun r => tr_authority r = tr_authority (tokenRequest st))
    (token_requests (snd (handle req env st))).
Proof.
  intros Hreq.
  assert (Hgen : forall authority scopes state,
    tr_authority (tokenRequest (fst (getAuthCode authority scopes state env st))) =
      tr_authority (tokenRequest st) /\
    Forall (fun r => tr_authority r = tr_authority (tokenRequest st))
      (token_requests (snd (getAuthCode authority scopes state env st)))).
  { intros authority scopes state. rewrite getAuthCode_tokenRequest.
    destruct (getAuthCode_effects authority scopes state env st) as (-> & _).
    split; [reflexivity|constructor]. }
  destruct req as [| | | |q]; simpl.
  - split; [reflexivity|constructor].
  - unfold get_login. destruct (strict_eq _ _); apply Hgen.
  - apply Hgen.
  - unfold get_api. destruct (accessToken st) as [token|]; [|apply Hgen].
    destruct (negb (truthy (Some token))); [apply Hgen|].
    split; [reflexivity|constructor].
  - simpl in Hreq.
    destruct (get_redirect_cases q env st)
      as [[Hq ->]|[[Hq _]|[(Hq & -> & _ & _ & Ht)|(_ & _ & _ & ->)]]].
    + destruct (env_token env) as [r|e]; simpl.
      * split; [reflexivity|]. constructor; [reflexivity|constructor].
      * destruct (login_rejected_requests q e (prepare_login q st)) as (-> & _).
        destruct (login_rejected_keeps q e (prepare_login q st)) as (_ & _ & -> & _).
        split; [reflexivity|]. constructor; [reflexivity|constructor].
    + rewrite Hq in Hreq. discriminate.
    + rewrite Ht. split; [reflexivity|constructor].
    + split; [reflexivity|constructor].
Qed.

Lemma serve_authority_kept reqs : forall st,
  Forall (fun p => is_call_api_redirect (fst p) = false) reqs ->
  tr_authority (tokenRequest (fst (serve reqs st))) = tr_authority (tokenRequest st) /\
  Forall (fun r => tr_authority r = tr_authority (tokenRequest st))
    (token_requests (snd (serve reqs st))).
Proof.
  induction reqs as [|[req env] rest IH]; intros st Hreqs.
  - simpl. split; [reflexivity|constructor].
  - inversion Hreqs as [|? ? Hreq Hrest]; subst. simpl in Hreq.
    destruct (serve_cons req env rest st) as [-> ->].
    destruct (handle_authority_kept req env st Hreq) as [Hs1 Hs2].
    destruct (IH (fst (handle req env st)) Hrest) as [I1 I2].
    rewrite Hs1 in I1, I2. split; [assumption|].
    unfold token_requests in *. rewrite flat_map_app. apply Forall_app. by split.
Qed.

Lemma serve_authority_set reqs : forall st,
  tr_authority (tokenRequest st) = Some (AuthorityUrl signUpSignIn) ->
  tr_authority (tokenRequest (fst (serve reqs st))) = Some (AuthorityUrl signUpSignIn) /\
  Forall (fun r => tr_authority r = Some (AuthorityUrl signUpSignIn))
    (token_requests (snd (serve reqs st))).
Proof.
  induction reqs as [|[req env] rest IH]; intros st Hst.
  - simpl. split; [assumption|constructor].
  - destruct (serve_cons req env rest st) as [-> ->].
    assert (Hstep :
      tr_authority (tokenRequest (fst (handle req env st))) =
        Some (AuthorityUrl signUpSignIn) /\
      Forall (fun r => tr_authority r = Some (AuthorityUrl signUpSignIn))
        (token_requests (snd (handle req env st)))).
    { destruct (is_call_api_redirect req) eqn:E.
      - destruct req as [| | | |q]; try discriminate E. simpl in E |- *.
        apply strict_eq_true in E.
        destruct (get_redirect_requests q env st) as (_ & _ & Hc & _). rewrite (Hc E).
        destruct (get_redirect_cases q env st)
          as [[Hq _]|[[_ Heq]|[(Hq & _)|(_ & Hq & _)]]];
          [rewrite E in Hq; discriminate| |rewrite E in Hq; discriminate|congruence].
        rewrite Heq.
        destruct (env_token env); simpl;
          (split; [reflexivity|constructor; [reflexivity|constructor]]).
      - destruct (handle_authority_kept req env st E) as [H1 H2].
        rewrite Hst in H1, H2. by split. }
    destruct Hstep as [Hs1 Hs2].
    destruct (IH _ Hs1) as [I1 I2]. split; [assumption|].
    unfold token_requests in *. rewrite flat_map_app. apply Forall_app. by split.
Qed.

Lemma get_redirect_token_requests q env st :
  Forall (fun r => tr_codeVerifier r = Some (verifier (pkceCodes st)) /\
                   tr_code r = q_code q)
    (token_requests (snd (get_redirect q env st))).
Proof.
  destruct (get_redirect_requests q env st) as (_ & Hl & Hc & Hn).
  destruct (decide (q_state q = Some APP_STATES_login)) as [Hq|Hq].
  { rewrite (Hl Hq). constructor; [by split|constructor]. }
  destruct (decide (q_state q = Some APP_STATES_call_api)) as [Hq'|Hq'].
  { rewrite (Hc Hq'). constructor; [by split|constructor]. }
  rewrite (Hn Hq Hq'). constructor.
Qed.

Lemma serve_keeps_pkce mid : forall st,
  Forall (fun p => keeps_pkce (fst p) = true) mid ->
  pkceCodes (fst (serve mid st)) = pkceCodes st /\
  Forall (fun r => tr_codeVerifier r = Some (verifier (pkceCodes st)))
    (token_requests (snd (serve mid st))).
Proof.
  induction mid as [|[req env] rest IH]; intros st Hmid.
  - simpl. split; [reflexivity|constructor].
  - inversion Hmid as [|? ? Hreq Hrest]; subst. simpl in Hreq.
    destruct (serve_cons req env rest st) as [-> ->].
    assert (Hstep : pkceCodes (fst (handle req env st)) = pkceCodes st /\
              Forall (fun r => tr_codeVerifier r = Some (verifier (pkceCodes st)))
                (token_requests (snd (handle req env st)))).
    { destruct req as [| | | |q]; try discriminate Hreq; simpl.
      - split; [reflexivity|constructor].
      - split; [apply get_redirect_pkceCodes|].
        eapply Forall_impl; [apply (get_redirect_token_requests q env st)|].
        by intros r [H _]. }
    destruct Hstep as [Hs1 Hs2]. destruct (IH (fst (handle req env st)) Hrest) as [I1 I2].
    rewrite Hs1 in I1, I2. split; [assumption|].
    unfold token_requests in *. rewrite flat_map_app. apply Forall_app. by split.
Qed.

(** X6: the two legs of the grant fit together: after [/login] or
    [/profile] sent the challenge of a generated pair, and as long as only
    [/] and [/redirect] are served in between, every code exchange, in
    particular the one answering a response with [state=login] or
    [state=call_api], sends the verifier of that same pair, together with the
    [code] of the response. *)
Theorem verifier_of_first_leg_is_sent_in_second_leg
    (start : Request) env0 mid q env st (v c : string) :
  start = GET_login \/ start = GET_profile ->
  env_pkce env0 = Returned (v, c) ->
  Forall (fun p => keeps_pkce (fst p) = true) mid ->
  q_state q = Some APP_STATES_login \/ q_state q = Some APP_STATES_call_api ->
  let st1 := fst (handle start env0 st) in
  let st2 := fst (serve mid st1) in
  (exists request,
     auth_requests (snd (handle start env0 st)) = [request] /\
     acr_codeChallenge request = Some c) /\
  Forall (fun r => tr_codeVerifier r = Some v) (token_requests (snd (serve mid st1))) /\
  (exists treq,
     token_requests (snd (get_redirect q env st2)) = [treq] /\
     tr_codeVerifier treq = Some v /\ tr_code treq = q_code q).
Proof.
  intros Hstart Hpkce Hmid Hq st1 st2.
  assert (Hfirst : forall authority scopes state,
    (exists request,
       auth_requests (snd (getAuthCode authority scopes state env0 st)) = [request] /\
       acr_codeChallenge request = Some c) /\
    verifier (pkceCodes (fst (getAuthCode authority scopes state env0 st))) = v).
  { intros authority scopes state. unfold getAuthCode. rewrite Hpkce.
    destruct (env_authCodeUrl env0); simpl; (split; [|reflexivity]);
      eexists; split; reflexivity. }
  assert (Hst1 : (exists request,
       auth_requests (snd (handle start env0 st)) = [request] /\
       acr_codeChallenge request = Some c) /\ verifier (pkceCodes st1) = v).
  { subst st1. destruct Hstart as [->| ->]; simpl.
    - unfold get_login. destruct (strict_eq _ _); apply Hfirst.
    - apply Hfirst. }
  destruct Hst1 as [Hreq Hv].
  destruct (serve_keeps_pkce mid st1 Hmid) as [Hkeep Hsent].
  rewrite Hv in Hsent. refine (conj Hreq (conj Hsent _)).
  pose proof (get_redirect_token_requests q env st2) as Hlast.
  destruct (get_redirect_requests q env st2) as (_ & Hl & Hc & _).
  assert (Hone : exists treq, token_requests (snd (get_redirect q env st2)) = [treq]).
  { destruct Hq as [Hq|Hq]; [rewrite (Hl Hq)|rewrite (Hc Hq)]; by eexists. }
  destruct Hone as [treq Htreq]. exists treq. split; [assumption|].
  rewrite Htreq in Hlast. apply Forall_inv in Hlast. destruct Hlast as [H1 H2].
  split; [|assumption]. rewrite H1. unfold st2. rewrite Hkeep, Hv. reflexivity.
Qed.

Lemma getAuthCode_state authority scopes state env st :
  acr_state (authCodeRequest (fst (getAuthCode authority scopes state env st))) = Some state.
Proof.
  unfold getAuthCode. destruct (env_pkce env); [|reflexivity].
  destruct (env_authCodeUrl env); reflexivity.
Qed.

(** In the detour the shared authorization request holds
    [state=password_reset]; a request keeps it so exactly when it is none of
    those that assign another state. *)
Lemma password_reset_kept_iff req env st :
  acr_state (authCodeRequest st) = Some APP_STATES_password_reset ->
  (acr_state (authCodeRequest (fst (handle req env st))) = Some APP_STATES_password_reset <->
   ends_password_reset req st = false).
Proof.
  intros Hst. destruct req as [| | | |q]; simpl.
  - by split.
  - unfold get_login. rewrite Hst. simpl. rewrite getAuthCode_state. by split.
  - unfold get_profile. rewrite getAuthCode_state. split; discriminate.
  - unfold get_api. destruct (accessToken st) as [token|]; simpl.
    + destruct (negb (String.eqb token "")); simpl.
      * by split.
      * rewrite getAuthCode_state. split; discriminate.
    + rewrite getAuthCode_state. split; discriminate.
  - destruct (get_redirect_cases q env st)
      as [[Hq ->]|[[Hq ->]|[(Hq & _)|(_ & _ & H3 & ->)]]].
    + rewrite Hq. simpl. split; [reflexivity|]. intros _.
      destruct (env_token env) as [r|e]; simpl; [assumption|].
      unfold login_rejected. destruct (truthy (q_error q)); [|assumption].
      destruct (q_error_description q) as [d|]; [|assumption].
      destruct (includes "AADB2C90118" d); [reflexivity|assumption].
    + rewrite Hq. simpl. split; [reflexivity|]. intros _.
      destruct (env_token env); assumption.
    + unfold get_redirect. rewrite Hq. simpl. split; discriminate.
    + simpl. split; [intros _|intros _; assumption].
      destruct (strict_eq (q_state q) APP_STATES_password_reset) eqn:E; [|reflexivity].
      apply strict_eq_true in E. congruence.
Qed.

(** X7: the forgotten-password detour.  When the code exchange of a [login]
    response is rejected and the response carries an [error] with a
    description that holds ["AADB2C90118"], the browser is sent to [/login]
    and the shared authorization request is left with
    [state=password_reset].  While it holds that state, [/login] asks for an
    authorization code at the password-reset authority with
    [state=password_reset]; a request keeps that state exactly when it is
    not [/profile], not [/api] with no token in store and not a response
    with [state=password_reset]; such a response is answered by a redirect
    to [/login] with no code exchange; and once the state is another one,
    [/login] asks at the sign-up/sign-in authority with [state=login]. *)
Theorem forgotten_password_detour_and_back
    q env st (e : AuthError) (pre post : string) :
  q_state q = Some APP_STATES_login ->
  env_token env = Thrown e ->
  truthy (q_error q) = true ->
  q_error_description q = Some (pre ++ "AADB2C90118" ++ post)%string ->
  (responses (snd (get_redirect q env st)) = [Redirect "/login"] /\
   acr_state (authCodeRequest (fst (get_redirect q env st))) =
     Some APP_STATES_password_reset) /\
  (forall st1 env1 codes url,
     acr_state (authCodeRequest st1) = Some APP_STATES_password_reset ->
     env_pkce env1 = Returned codes -> env_authCodeUrl env1 = Returned url ->
     exists request,
       snd (get_login env1 st1) =
         [GeneratePkceCodes; GetAuthCodeUrl request; Respond (Redirect url)] /\
       acr_authority request = Some (AuthorityUrl resetPassword) /\
       acr_state request = Some APP_STATES_password_reset /\
       acr_scopes request = Some SCOPES_oidc) /\
  (forall st1 req env1,
     acr_state (authCodeRequest st1) = Some APP_STATES_password_reset ->
     (acr_state (authCodeRequest (fst (handle req env1 st1))) =
        Some APP_STATES_password_reset <->
      ends_password_reset req st1 = false)) /\
  (forall st1 q2 env2,
     q_state q2 = Some APP_STATES_password_reset ->
     snd (get_redirect q2 env2 st1) = [Respond (Redirect "/login")] /\
     acr_state (authCodeRequest (fst (get_redirect q2 env2 st1))) = Some APP_STATES_login) /\
  (forall st1 env1 codes url,
     acr_state (authCodeRequest st1) <> Some APP_STATES_password_reset ->
     env_pkce env1 = Returned codes -> env_authCodeUrl env1 = Returned url ->
     exists request,
       snd (get_login env1 st1) =
         [GeneratePkceCodes; GetAuthCodeUrl request; Respond (Redirect url)] /\
       acr_authority request = Some (AuthorityUrl signUpSignIn) /\
       acr_state request = Some APP_STATES_login /\
       acr_scopes request = Some SCOPES_oidc).
Proof.
  intros Hq Htoken Herr Hdesc.
  refine (conj _ (conj _ (conj _ (conj _ _)))).
  - unfold get_redirect. rewrite Hq, Htoken. simpl.
    unfold login_rejected. rewrite Herr, Hdesc, includes_app. by split.
  - intros st1 env1 codes url Hst1 Hp Hu.
    unfold get_login. rewrite Hst1. simpl strict_eq. cbv iota.
    unfold getAuthCode. rewrite Hp, Hu. simpl.
    eexists. split; [reflexivity|by repeat split].
  - intros st1 req env1. apply password_reset_kept_iff.
  - intros st1 q2 env2 Hq2. unfold get_redirect. rewrite Hq2. by split.
  - intros st1 env1 codes url Hst1 Hp Hu.
    unfold get_login.
    destruct (strict_eq (acr_state (authCodeRequest st1)) APP_STATES_password_reset) eqn:E.
    { apply strict_eq_true in E. congruence. }
    unfold getAuthCode. rewrite Hp, Hu. simpl.
    eexists. split; [reflexivity|by repeat split].
Qed.

Lemma get_redirect_responses q env st :
  (length (responses (snd (get_redirect q env st))) <= 1)%nat /\
  (responses (snd (get_redirect q env st)) = [] <->
     q_state q = Some APP_STATES_login /\ (exists e, env_token env = Thrown e) /\
     truthy (q_error q) = true /\ q_error_description q = None).
Proof.
  destruct (get_redirect_cases q env st)
    as [[Hq ->]|[[Hq ->]|[(Hq & -> & _)|(H1 & _ & _ & ->)]]].
  - destruct (env_token env) as [r|e]; simpl.
    + split; [lia|]. split; [discriminate|]. intros (_ & [e H] & _). discriminate.
    + destruct (login_rejected_requests q e (prepare_login q st)) as (_ & _ & Hle & Hiff).
      split; [assumption|]. rewrite Hiff. split.
      * intros [H1 H2]. repeat split; auto. by exists e.
      * intros (_ & _ & H1 & H2). by split.
  - destruct (env_token env) as [r|e]; simpl;
      (split; [lia|]); (split; [discriminate|]);
      intros (H & _); rewrite Hq in H; discriminate.
  - simpl. split; [lia|]. split; [discriminate|].
    intros (H & _). rewrite Hq in H. discriminate.
  - simpl. split; [lia|]. split; [discriminate|]. intros (H & _). congruence.
Qed.

Lemma handle_responses req env st :
  (length (responses (snd (handle req env st))) <= 1)%nat.
Proof.
  destruct req as [| | | |q]; simpl.
  - lia.
  - unfold get_login. destruct (strict_eq _ _); apply getAuthCode_effects.
  - apply getAuthCode_effects.
  - unfold get_api. destruct (accessToken st) as [token|]; [|apply getAuthCode_effects].
    destruct (negb (truthy (Some token))); [apply getAuthCode_effects|simpl; lia].
  - apply get_redirect_responses.
Qed.

(** X8: no request is answered twice: every route sends at most one
    response, so a run of [n] requests sends at most [n]. *)
Theorem no_request_is_answered_twice reqs st :
  (forall req env st', (length (responses (snd (handle req env st'))) <= 1)%nat) /\
  (length (responses (snd (serve reqs st))) <= length reqs)%nat.
Proof.
  split; [intros req env st'; apply handle_responses|].
  revert st. induction reqs as [|[req env] rest IH]; intros st; [simpl; lia|].
  destruct (serve_cons req env rest st) as [_ ->].
  unfold responses in *. rewrite flat_map_app, length_app.
  pose proof (handle_responses req env st) as H1. unfold responses in H1.
  specialize (IH (fst (handle req env st))). simpl length. lia.
Qed.

(** X9: the requests that are left without any response are exactly these:
    a route that starts an authorization request ([/login], [/profile], or
    [/api] with no token in store) when [generatePkceCodes] or
    [getAuthCodeUrl] is rejected; and a [login] response whose code exchange
    is rejected while the query carries an [error] but no
    [error_description]. *)
Theorem unanswered_requests req env st :
  responses (snd (handle req env st)) = [] <->
  ((req = GET_login \/ req = GET_profile \/
    (req = GET_api /\ truthy (accessToken st) = false)) /\
   ((exists e, env_pkce env = Thrown e) \/ (exists e, env_authCodeUrl env = Thrown e))) \/
  (exists q, req = GET_redirect q /\
     q_state q = Some APP_STATES_login /\ (exists e, env_token env = Thrown e) /\
     truthy (q_error q) = true /\ q_error_description q = None).
Proof.
  destruct req as [| | | |q]; simpl.
  - split; [discriminate|].
    intros [[[H|[H|[H _]]] _]|(q & H & _)]; discriminate.
  - unfold get_login.
    assert (H : forall authority scopes state,
      responses (snd (getAuthCode authority scopes state env st)) = [] <->
      ((GET_login = GET_login \/ GET_login = GET_profile \/
        (GET_login = GET_api /\ truthy (accessToken st) = false)) /\
       ((exists e, env_pkce env = Thrown e) \/
        (exists e, env_authCodeUrl env = Thrown e))) \/
      (exists q, GET_login = GET_redirect q /\
         q_state q = Some APP_STATES_login /\ (exists e, env_token env = Thrown e) /\
         truthy (q_error q) = true /\ q_error_description q = None)).
    { intros authority scopes state.
      destruct (getAuthCode_effects authority scopes state env st) as (_ & _ & ->).
      split; [intros H; left; split; [by left|assumption]|].
      intros [[_ H]|(q & H & _)]; [assumption|discriminate]. }
    destruct (strict_eq _ _); apply H.
  - unfold get_profile.
    destruct (getAuthCode_effects (AuthorityUrl editProfile) SCOPES_oidc
                APP_STATES_login env st) as (_ & _ & ->).
    split; [intros H; left; split; [right; by left|assumption]|].
    intros [[_ H]|(q & H & _)]; [assumption|discriminate].
  - destruct (truthy (accessToken st)) eqn:E.
    + apply truthy_true in E as (token & Htok & Hne).
      rewrite (get_api_hit env st token Htok Hne). simpl.
      split; [discriminate|].
      intros [[[H|[H|[_ H]]] _]|(q & H & _)]; discriminate.
    + rewrite (get_api_miss env st E).
      destruct (getAuthCode_effects (AuthorityUrl signUpSignIn) SCOPES_resource1
                  APP_STATES_call_api env st) as (_ & _ & ->).
      split; [intros H; left; split; [right; right; by split|assumption]|].
      intros [[_ H]|(q & H & _)]; [assumption|discriminate].
  - destruct (get_redirect_responses q env st) as [_ ->]. split.
    + intros H. right. by exists q.
    + intros [[[H|[H|[H _]]] _]|(q' & [= <-] & H)]; try discriminate. assumption.
Qed.

(** X10: from start-up on, whatever requests are served and whatever the
    outside answers, the two shared request objects keep the fixed redirect
    URI and the challenge method stays ["S256"]; every authorization request
    handed to [getAuthCodeUrl] carries that redirect URI, an S256 challenge,
    an authority URL (never the policy object that the password-reset branch
    stores) and one of the four combinations of authority, scopes and state
    of the routes; and every token request handed to [acquireTokenByCode]
    carries the redirect URI, a verifier, and the scopes of its branch. *)
Theorem requests_of_every_run_are_well_formed reqs :
  shared_objects_ok (fst (serve reqs initial)) /\
  Forall auth_request_ok (auth_requests (snd (serve reqs initial))) /\
  Forall token_request_ok (token_requests (snd (serve reqs initial))).
Proof.
  apply serve_ok. unfold shared_objects_ok. simpl. repeat split. by left.
Qed.

(** X11: the token request takes its authority from the shared object, not
    from the flow that issued the code.  Until a response with
    [state=call_api] has been handled, every code exchange is sent with no
    authority at all; once one has been handled, every later exchange is
    sent with the sign-up/sign-in authority, also the exchange of a code
    obtained at the edit-profile or password-reset authority. *)
Theorem exchange_authority_comes_from_the_shared_object reqs q env rest :
  Forall (fun p => is_call_api_redirect (fst p) = false) reqs ->
  q_state q = Some APP_STATES_call_api ->
  Forall (fun r => tr_authority r = None) (token_requests (snd (serve reqs initial))) /\
  Forall (fun r => tr_authority r = Some (AuthorityUrl signUpSignIn))
    (token_requests
       (snd (serve ((GET_redirect q, env) :: rest) (fst (serve reqs initial))))).
Proof.
  intros Hreqs Hq. split.
  - apply (serve_authority_kept reqs initial Hreqs).
  - destruct (serve_cons (GET_redirect q) env rest (fst (serve reqs initial))) as [_ ->].
    unfold token_requests. rewrite flat_map_app. apply Forall_app.
    set (st := fst (serve reqs initial)).
    destruct (get_redirect_requests q env st) as (_ & _ & Hc & _).
    assert (Hst : tr_authority (tokenRequest (fst (handle (GET_redirect q) env st))) =
                  Some (AuthorityUrl signUpSignIn)).
    { simpl.
      destruct (get_redirect_cases q env st)
        as [[Hq' _]|[[_ Heq]|[(Hq' & _)|(_ & Hq' & _)]]];
        [rewrite Hq in Hq'; discriminate| |rewrite Hq in Hq'; discriminate|congruence].
      rewrite Heq. destruct (env_token env); reflexivity. }
    split.
    + simpl handle. fold (token_requests (snd (get_redirect q env st))).
      rewrite (Hc Hq). constructor; [reflexivity|constructor].
    + apply (serve_authority_set rest _ Hst).
Qed.

End Run_facts.

Lemma verifier_round_trip_example :
  let env0 : B2CApp.Env unit :=
    {| B2CApp.env_pkce := Returned ("verifier-1", "challenge-1");
       B2CApp.env_authCodeUrl := Returned "https://login.example/authorize";
       B2CApp.env_token := Thrown tt; B2CApp.env_apiResponse := "{}" |} in
  let q := {| B2CApp.q_state := Some "login"; B2CApp.q_code := Some "code-1";
              B2CApp.q_error := None; B2CApp.q_error_description := None |} in
  let st2 := fst (B2CApp.serve [(B2CApp.GET_root, env0)]
                    (fst (B2CApp.handle B2CApp.GET_login env0 B2CApp.initial))) in
  exists treq,
    B2CRun.token_requests (snd (B2CApp.get_redirect q env0 st2)) = [treq] /\
    B2CApp.tr_codeVerifier treq = Some "verifier-1" /\
    B2CApp.tr_code treq = Some "code-1".
Proof.
  intros env0 q st2.
  destruct (verifier_of_first_leg_is_sent_in_second_leg B2CApp.GET_login env0
              [(B2CApp.GET_root, env0)] q env0 B2CApp.initial "verifier-1" "challenge-1")
    as (_ & _ & H).
  - by left.
  - reflexivity.
  - repeat constructor.
  - by left.
  - exact H.
Defined.

Lemma forgotten_password_example :
  let env : B2CApp.Env unit :=
    {| B2CApp.env_pkce := Returned ("verifier-1", "challenge-1");
       B2CApp.env_authCodeUrl := Returned "https://login.example/authorize";
       B2CApp.env_token := Thrown tt; B2CApp.env_apiResponse := "{}" |} in
  let q := {| B2CApp.q_state := Some "login"; B2CApp.q_code := None;
              B2CApp.q_error := Some "access_denied";
              B2CApp.q_error_description :=
                Some "AADB2C90118: The user has forgotten their password." |} in
  B2CRun.responses (snd (B2CApp.get_redirect q env B2CApp.initial)) =
    [B2CApp.Redirect "/login"].
Proof.
  intros env q.
  destruct (forgotten_password_detour_and_back q env B2CApp.initial tt
              "" ": The user has forgotten their password.") as [[H _] _].
  - reflexivity.
  - reflexivity.
  - reflexivity.
  - reflexivity.
  - exact H.
Defined.

Lemma exchange_authority_example :
  let env : B2CApp.Env unit :=
    {| B2CApp.env_pkce := Returned ("verifier-1", "challenge-1");
       B2CApp.env_authCodeUrl := Returned "https://login.example/authorize";
       B2CApp.env_token := Thrown tt; B2CApp.env_apiResponse := "{}" |} in
  let back state := B2CApp.GET_redirect
    {| B2CApp.q_state := Some state; B2CApp.q_code := Some "code";
       B2CApp.q_error := None; B2CApp.q_error_description := None |} in
  Forall (fun r => B2CApp.tr_authority r = None)
    (B2CRun.token_requests
       (snd (B2CApp.serve [(B2CApp.GET_profile, env); (back "login", env)]
               B2CApp.initial))) /\
  Forall (fun r => B2CApp.tr_authority r =
                   Some (B2CApp.AuthorityUrl B2CApp.signUpSignIn))
    (B2CRun.token_requests
       (snd (B2CApp.serve
               [(back "call_api", env); (B2CApp.GET_profile, env); (back "login", env)]
               (fst (B2CApp.serve [(B2CApp.GET_profile, env); (back "login", env)]
                       B2CApp.initial))))).
Proof.
  intros env back.
  apply (exchange_authority_comes_from_the_shared_object
           [(B2CApp.GET_profile, env); (back "login", env)]
           {| B2CApp.q_state := Some "call_api"; B2CApp.q_code := Some "code";
              B2CApp.q_error := None; B2CApp.q_error_description := None |}
           env [(B2CApp.GET_profile, env); (back "login", env)]).
  - repeat constructor.
  - reflexivity.
Defined.

Lemma unanswered_request_example :
  let env : B2CApp.Env unit :=
    {| B2CApp.env_pkce := Returned ("verifier-1", "challenge-1");
       B2CApp.env_authCodeUrl := Returned "https://login.example/authorize";
       B2CApp.env_token := Thrown tt; B2CApp.env_apiResponse := "{}" |} in
  let q := {| B2CApp.q_state := Some "login"; B2CApp.q_code := None;
              B2CApp.q_error := Some "access_denied";
              B2CApp.q_error_description := None |} in
  B2CRun.responses (snd (B2CApp.handle (B2CApp.GET_redirect q) env B2CApp.initial)) = [].
Proof.
  intros env q.
  apply (unanswered_requests (B2CApp.GET_redirect q) env B2CApp.initial).
  right. exists q. repeat split. by exists tt.
Defined.

Section Fast_path_facts.

Context {AuthError : Type}.
Import B2CApp B2CRun.

(** X12: once a non-empty access token is in store, any number of requests
    to [/api] in a row, whatever the web API answers, leave the application
    state as it was, hand that same token to the web API once per request,
    answer every request, and never call the authority or the token endpoint
    again. *)
Theorem stored_token_serves_every_later_api_request
    (envs : list (Env AuthError)) (st : AppState) (token : string) :
  accessToken st = Some token ->
  token <> "" ->
  let run := serve ((fun env => (GET_api, env)) <$> envs) st in
  fst run = st /\
  api_tokens (snd run) = repeat token (length envs) /\
  length (responses (snd run)) = length envs /\
  List.filter is_acquisition (snd run) = [].
Proof.
  intros Htok Hne run. subst run.
  induction envs as [|env envs IH]; [by repeat split|].
  cbn [fmap list_fmap].
  destruct (serve_cons GET_api env ((fun env => (GET_api, env)) <$> envs) st) as [-> ->].
  simpl handle. rewrite (get_api_hit env st token Htok Hne). simpl fst. simpl snd.
  destruct IH as (I1 & I2 & I3 & I4).
  unfold api_tokens, responses in *. cbn [flat_map List.filter is_acquisition app length repeat].
  rewrite I1, I2, I3, I4. by repeat split.
Qed.

End Fast_path_facts.

Lemma stored_token_three_requests_example :
  let env : B2CApp.Env unit :=
    {| B2CApp.env_pkce := Thrown tt; B2CApp.env_authCodeUrl := Thrown tt;
       B2CApp.env_token := Thrown tt; B2CApp.env_apiResponse := "{}" |} in
  let st := B2CApp.set_accessToken (Some "token") B2CApp.initial in
  B2CApp.api_tokens
    (snd (B2CApp.serve [(B2CApp.GET_api, env); (B2CApp.GET_api, env); (B2CApp.GET_api, env)]
            st)) = ["token"; "token"; "token"].
Proof.
  intros env st.
  destruct (stored_token_serves_every_later_api_request [env; env; env] st "token")
    as (_ & H & _).
  - reflexivity.
  - discriminate.
  - exact H.
Defined.
